(** * ue-angelscript-mcp: script tools, file scanner and commandlet runner

  A shallow embedding of the path resolver and search engine of
    [tools/scripts.ts], of the scanner of [util/file-scanner.ts] and of the
    process runner of [util/commandlet.ts], with the properties the
    specification states about them, and of the documentation loader and
    search of [context/loader.ts] and [context/search.ts].

    JavaScript strings are modelled by [string] (one character per code
    unit), JavaScript numbers that hold lengths, indices and counts by [Z]. *)

From Stdlib Require Import ZArith List String Ascii Bool Lia.
From Stdlib Require Import Sorting.Sorted Sorting.Permutation.
From Stdlib Require Import DecimalString.
Import ListNotations.

Local Open Scope string_scope.
Local Open Scope Z_scope.

(* ===================================================================== *)
(** ** The JavaScript string operations the sources use *)
(* ===================================================================== *)

Module JS.

(** [s.length] *)
Definition length (s : string) : Z := Z.of_nat (String.length s).

(** [s.startsWith(p)] *)
Definition startsWith (s p : string) : bool := String.prefix p s.

(** [s[i]]: [None] stands for [undefined]. *)
Definition at_ (s : string) (i : Z) : option ascii :=
  if i <? 0 then None else String.get (Z.to_nat i) s.

(** [s.substring(0, n)] *)
Definition substring0 (s : string) (n : Z) : string :=
  String.substring 0 (Z.to_nat n) s.

(** [s.endsWith(p)] *)
Definition endsWith (s p : string) : bool :=
  let ls := String.length s in
  let lp := String.length p in
  (lp <=? ls)%nat && String.eqb (String.substring (ls - lp) lp s) p.

(** [s.split(c)] for a one-character separator. *)
Fixpoint split (c : ascii) (s : string) : list string :=
  match s with
  | EmptyString => [""]
  | String a r =>
      if Ascii.eqb a c then "" :: split c r
      else match split c r with
           | h :: t => String a h :: t
           | [] => [String a ""]
           end
  end.

(** [l.join(sep)] *)
Definition join (sep : string) (l : list string) : string :=
  String.concat sep l.

(** [`${n}`] for an integer. *)
Definition toString (n : Z) : string :=
  NilZero.string_of_int (Z.to_int n).

(** [!s] for a string: only the empty string is falsy. *)
Definition falsy (s : string) : bool := String.eqb s "".

(** The comparison of two strings by their code units, from the left:
  the locale-naive lexicographic order. *)
Fixpoint codePointCompare (a b : string) : Z :=
match a, b with
| EmptyString, EmptyString => 0
| EmptyString, String _ _ => -1
| String _ _, EmptyString => 1
| String c a', String d b' =>
    let x := Z.of_nat (nat_of_ascii c) in
    let y := Z.of_nat (nat_of_ascii d) in
    if x <? y then -1 else if y <? x then 1 else codePointCompare a' b'
end.

Definition nl : string := String (ascii_of_nat 10) "".
Definition tab : string := String (ascii_of_nat 9) "".

End JS.

(* ===================================================================== *)
(** ** Node's [path] module *)
(* ===================================================================== *)

(** The functions of [path] the sources call.  The module is platform
    dependent ([path.posix] or [path.win32]), so the code is embedded over
    this interface; [posix] below is the instance used to run it. *)
Class PathApi : Type := {
  sep : ascii;
  normalize : string -> string;
  isAbsolute : string -> bool;
  resolve : string -> string -> string;
  join : string -> string -> string;
  relative : string -> string -> string
}.

Module Posix.

Definition slash : ascii := "/"%char.

(** One step of [normalizeString]: the segments kept so far are a stack,
    last segment first. *)
Definition pushSegment (allowAboveRoot : bool) (stack : list string)
    (seg : string) : list string :=
  if String.eqb seg "" || String.eqb seg "." then stack
  else if String.eqb seg ".." then
    match stack with
    | top :: rest =>
        if String.eqb top ".."
        then (if allowAboveRoot then ".." :: stack else stack)
        else rest
    | [] => if allowAboveRoot then [".."] else []
    end
  else seg :: stack.

Definition normalizeSegments (allowAboveRoot : bool) (segs : list string)
    : list string :=
  rev (fold_left (pushSegment allowAboveRoot) segs []).

(** [normalizeString(path, allowAboveRoot, "/", isPosixPathSeparator)] *)
Definition normalizeString (path : string) (allowAboveRoot : bool) : string :=
  JS.join "/" (normalizeSegments allowAboveRoot (JS.split slash path)).

Definition isAbsolute (path : string) : bool :=
  match path with
  | String c _ => Ascii.eqb c slash
  | EmptyString => false
  end.

Definition normalize (path : string) : string :=
  if String.eqb path "" then "."
  else
    let isAbs := isAbsolute path in
    let trailingSeparator := JS.endsWith path "/" in
    let p := normalizeString path (negb isAbs) in
    if String.eqb p "" then
      if isAbs then "/" else if trailingSeparator then "./" else "."
    else
      let p := if trailingSeparator then p ++ "/" else p in
      if isAbs then "/" ++ p else p.

(** The loop of [resolve]: arguments are visited from the last one until
    an absolute one has been prepended. *)
Fixpoint resolveLoop (revArgs : list string) (resolvedPath : string)
    : string * bool :=
  match revArgs with
  | [] => (resolvedPath, false)
  | p :: rest =>
      if String.eqb p "" then resolveLoop rest resolvedPath
      else
        let rp := p ++ "/" ++ resolvedPath in
        if isAbsolute p then (rp, true) else resolveLoop rest rp
  end.

Definition nonEmpty (l : list string) : list string :=
  filter (fun s => negb (String.eqb s "")) l.

Fixpoint dropCommon (xs ys : list string) : list string * list string :=
  match xs, ys with
  | x :: xs', y :: ys' =>
      if String.eqb x y then dropCommon xs' ys' else (xs, ys)
  | _, _ => (xs, ys)
  end.

Section WithCwd.
(** [process.cwd()], an absolute path. *)
Variable cwd : string.

Definition resolveAll (args : list string) : string :=
  let '(rp, isAbs) := resolveLoop (rev (cwd :: args)) "" in
  let n := normalizeString rp (negb isAbs) in
  if isAbs then "/" ++ n
  else if String.eqb n "" then "." else n.

Definition resolve (a b : string) : string := resolveAll [a; b].

Definition join (a b : string) : string :=
  match nonEmpty [a; b] with
  | [] => "."
  | parts => normalize (JS.join "/" parts)
  end.

(** [relative(from, to)]: both paths are resolved, the common leading
    segments are dropped, every segment left of [from] becomes [..]. *)
Definition relative (from to : string) : string :=
  if String.eqb from to then ""
  else
    let f := resolveAll [from] in
    let t := resolveAll [to] in
    if String.eqb f t then ""
    else
      let '(fs, ts) :=
        dropCommon (nonEmpty (JS.split slash f)) (nonEmpty (JS.split slash t)) in
      JS.join "/" (map (fun _ => "..") fs ++ ts).

End WithCwd.

End Posix.

(** [path.posix] with the working directory [cwd]. *)
Definition posix (cwd : string) : PathApi := {|
  sep := Posix.slash;
  normalize := Posix.normalize;
  isAbsolute := Posix.isAbsolute;
  resolve := Posix.resolve cwd;
  join := Posix.join;
  relative := Posix.relative cwd
|}.

(* ===================================================================== *)
(** ** The file system, and the trace of the calls made to [fs] *)
(* ===================================================================== *)

Module Fs.

(** What a directory entry can be.  [Special] is an entry that is neither
    a regular file nor a directory (a link, a socket); [Unreadable] is an
    entry the directory lists as a directory or as a file, on which
    [readdirSync], [statSync] and [readFileSync] throw. *)
#[warnings="-register-all"]
Inductive Node : Type :=
| File (size : Z) (content : string)
| Dir (entries : list (string * Node))
| Special
| Unreadable (listedAsDirectory : bool).

(** The tree under [/] and the process's working directory. *)
Record FileSystem : Type := { cwd : string; tree : Node }.

(** [Dirent.isDirectory()], [Dirent.isFile()] *)
Definition isDirectory (n : Node) : bool :=
  match n with Dir _ => true | Unreadable d => d | _ => false end.

Definition isFile (n : Node) : bool :=
  match n with File _ _ => true | Unreadable d => negb d | _ => false end.

Fixpoint child (name : string) (entries : list (string * Node)) : option Node :=
  match entries with
  | [] => None
  | (n, c) :: rest => if String.eqb n name then Some c else child name rest
  end.

(** The walk of the operating system along the segments of a path, as
    they are written: [above] holds the directories entered so far, the
    innermost first.  An empty segment and [.] stay in the directory,
    [..] goes back to the directory above (the root is above itself), a
    name enters the entry of that name; a segment met in anything but a
    directory, or a name the directory does not have, ends the walk. *)
Fixpoint lookupSegments (segs : list string) (above : list Node) (n : Node)
    : option Node :=
  match segs with
  | [] => Some n
  | s :: rest =>
      match n with
      | Dir entries =>
          if String.eqb s "" || String.eqb s "." then
            lookupSegments rest above n
          else if String.eqb s ".." then
            match above with
            | parent :: higher => lookupSegments rest higher parent
            | [] => lookupSegments rest [] n
            end
          else
            match child s entries with
            | Some c => lookupSegments rest (n :: above) c
            | None => None
            end
      | _ => None
      end
  end.

(** The entry a path leads to: an absolute path is walked from the root,
    a relative one from the working directory; the empty path leads
    nowhere. *)
Definition lookup (fs : FileSystem) (p : string) : option Node :=
  if String.eqb p "" then None
  else
    lookupSegments
      (JS.split Posix.slash
         (if Posix.isAbsolute p then p else cwd fs ++ "/" ++ p))
      [] (tree fs).

(** The calls to [fs], in the order they are made. *)
Inductive FsOp : Type :=
| StatSync (p : string)
| ReaddirSync (p : string)
| ReadFileSync (p : string).

(** A computation that returns a value and the calls it made. *)
Definition IO (A : Type) : Type := (A * list FsOp)%type.

Definition ret {A} (a : A) : IO A := (a, []).

Definition bind {A B} (m : IO A) (k : A -> IO B) : IO B :=
  let '(a, t1) := m in
  let '(b, t2) := k a in
  (b, (t1 ++ t2)%list).

Definition value {A} (m : IO A) : A := fst m.
Definition trace {A} (m : IO A) : list FsOp := snd m.

(** [fs.existsSync(p)] never throws. *)
Definition exists_ (fs : FileSystem) (p : string) : bool :=
  match lookup fs p with Some _ => true | None => false end.

Record Stats : Type := { statIsDirectory : bool; statSize : Z }.

(** [fs.statSync(p)]: [None] when it throws. *)
Definition statNode (n : Node) : option Stats :=
  match n with
  | File size _ => Some {| statIsDirectory := false; statSize := size |}
  | Dir _ => Some {| statIsDirectory := true; statSize := 0 |}
  | Special => Some {| statIsDirectory := false; statSize := 0 |}
  | Unreadable _ => None
  end.

Definition statSync (fs : FileSystem) (p : string) : IO (option Stats) :=
  (match lookup fs p with Some n => statNode n | None => None end,
   [StatSync p]).

(** [fs.readFileSync(p, "utf-8")]: [None] when it throws. *)
Definition readFileSync (fs : FileSystem) (p : string) : IO (option string) :=
  (match lookup fs p with Some (File _ c) => Some c | _ => None end,
   [ReadFileSync p]).

End Fs.

Declare Scope io_scope.
Delimit Scope io_scope with io.
Notation "x <- m ;; k" := (Fs.bind m (fun x => k))
  (at level 61, m at next level, right associativity) : io_scope.
Notation "' pat <- m ;; k" := (Fs.bind m (fun x => let 'pat := x in k))
  (at level 61, pat pattern, m at next level, right associativity) : io_scope.

(* ===================================================================== *)
(** ** util/file-scanner.ts *)
(* ===================================================================== *)

Module FileScanner.

Record ScriptFile : Type := {
  absolutePath : string;
  relativePath : string;
  root : string;
  size : Z
}.

(** Directories to skip during recursive scan *)
Definition SKIP_DIRS : list string :=
  ["node_modules"; ".git"; "Intermediate"; "Saved"; "__pycache__";
   "Binaries"; ".vscode"; ".idea"].

Definition skipped (name : string) : bool :=
  existsb (String.eqb name) SKIP_DIRS.

(** [s.replace(/\\/g, "/")] *)
Fixpoint toForwardSlashes (s : string) : string :=
  match s with
  | EmptyString => EmptyString
  | String c r =>
      String (if Ascii.eqb c "\"%char then "/"%char else c) (toForwardSlashes r)
  end.

(** [Array.prototype.sort(cmp)]: the sort is stable, and for a consistent
    comparator its result is the only stable sorted arrangement; it is
    computed here by insertion from the right. *)
Fixpoint insertBy {A} (cmp : A -> A -> Z) (x : A) (l : list A) : list A :=
  match l with
  | [] => [x]
  | y :: t => if cmp x y <=? 0 then x :: l else y :: insertBy cmp x t
  end.

Definition sortBy {A} (cmp : A -> A -> Z) (l : list A) : list A :=
  fold_right (insertBy cmp) [] l.

Section Scan.

Context {P : PathApi}.

(** [String.prototype.localeCompare], the collation of the runtime's
    locale: negative, zero or positive. *)
Variable localeCompare : string -> string -> Z.

Local Open Scope io_scope.

(** [n] is the entry found at [dir]; [results] is the accumulator the
    source mutates, returned here. *)
Fixpoint scanDirectory (n : Fs.Node) (dir rootDir : string)
    (results : list ScriptFile) : Fs.IO (list ScriptFile) :=
  match n with
  | Fs.Dir entries =>
      rs <- (results, [Fs.ReaddirSync dir]) ;;
      (fix each (es : list (string * Fs.Node)) (results : list ScriptFile)
         : Fs.IO (list ScriptFile) :=
         match es with
         | [] => Fs.ret results
         | (name, entry) :: rest =>
             let fullPath := join dir name in
             if Fs.isDirectory entry then
               if skipped name then each rest results
               else
                 rs <- scanDirectory entry fullPath rootDir results ;;
                 each rest rs
             else if Fs.isFile entry && JS.endsWith name ".as" then
               rs <- (match Fs.statNode entry with
                      | Some stats =>
                          let relativePath := relative rootDir fullPath in
                          (results ++
                             [{| absolutePath := fullPath;
                                 relativePath := toForwardSlashes relativePath;
                                 root := rootDir;
                                 size := Fs.statSize stats |}])%list
                      | None => results
                      end, [Fs.StatSync fullPath]) ;;
               each rest rs
             else each rest results
         end) entries rs
  | _ => (results, [Fs.ReaddirSync dir])
  end.

Fixpoint scanRoots (fs : Fs.FileSystem) (roots : list string)
    (results : list ScriptFile) : Fs.IO (list ScriptFile) :=
  match roots with
  | [] => Fs.ret results
  | root :: rest =>
      st <- Fs.statSync fs root ;;
      match st, Fs.lookup fs root with
      | Some stats, Some n =>
          if negb (Fs.statIsDirectory stats) then scanRoots fs rest results
          else
            rs <- scanDirectory n root root results ;;
            scanRoots fs rest rs
      | _, _ => scanRoots fs rest results
      end
  end.

Definition byRelativePath (a b : ScriptFile) : Z :=
  localeCompare (relativePath a) (relativePath b).

Definition scanForScripts (fs : Fs.FileSystem) (roots : list string)
    : Fs.IO (list ScriptFile) :=
  results <- scanRoots fs roots [] ;;
  Fs.ret (sortBy byRelativePath results).

End Scan.

End FileScanner.

(* ===================================================================== *)
(** ** config.ts *)
(* ===================================================================== *)

Module Config.

Record Config : Type := {
  projectPath : option string;
  editorCmd : option string;
  extraScriptRoots : list string;
  isEngineTree : bool
}.

(** Script directories for game projects *)
Definition GAME_SCRIPT_DIRS : list string := ["Script"; "Scripts"].

(** Script directories for engine source trees *)
Definition ENGINE_SCRIPT_DIRS : list string :=
  ["Script-Examples"; "Script"; "Scripts"].

(** [config.projectPath] as a condition: [null] and the empty string are
    falsy. *)
Definition configured (config : Config) : bool :=
  match projectPath config with
  | Some p => negb (JS.falsy p)
  | None => false
  end.

Definition getScriptRoots {P : PathApi} (config : Config) : list string :=
  (extraScriptRoots config ++
   match projectPath config with
   | Some p =>
       if JS.falsy p then []
       else map (join p)
              (if isEngineTree config then ENGINE_SCRIPT_DIRS
               else GAME_SCRIPT_DIRS)
   | None => []
   end)%list.

End Config.

(* ===================================================================== *)
(** ** tools/scripts.ts *)
(* ===================================================================== *)

Module Scripts.

Record ResolvedPath : Type := { absolutePath : string; root : string }.

Record SearchMatch : Type := {
  line : Z;
  content : string;
  context : list string
}.

(** A compiled [RegExp] without flags, used through [test] only. *)
Definition RegExp : Type := string -> bool.

Section PathResolver.

Context {P : PathApi}.

(** [fs.existsSync] *)
Variable existsSync : string -> bool.

Definition confines (normalizedPath : string) (root : string) : bool :=
  let normalizedRoot := normalize root in
  JS.startsWith normalizedPath normalizedRoot &&
  ((JS.length normalizedPath =? JS.length normalizedRoot) ||
   match JS.at_ normalizedPath (JS.length normalizedRoot) with
   | Some c => Ascii.eqb c sep
   | None => false
   end).

Definition isPathInScriptRoots (absolutePath : string) (roots : list string)
    : bool :=
  let normalizedPath := normalize absolutePath in
  existsb (confines normalizedPath) roots.

Fixpoint resolveAgainst (filePath : string) (allRoots roots : list string)
    : option ResolvedPath :=
  match roots with
  | [] => None
  | root :: rest =>
      let absolutePath := resolve root filePath in
      if isPathInScriptRoots absolutePath allRoots && existsSync absolutePath
      then Some {| absolutePath := absolutePath; root := root |}
      else resolveAgainst filePath allRoots rest
  end.

Definition resolveScriptPath (filePath : string) (roots : list string)
    : option ResolvedPath :=
  if isAbsolute filePath then
    if isPathInScriptRoots filePath roots && existsSync filePath then
      match
        find (fun r =>
                let normalizedRoot := normalize r in
                let normalizedPath := normalize filePath in
                JS.startsWith normalizedPath normalizedRoot) roots
      with
      | Some root =>
          if JS.falsy root then None
          else Some {| absolutePath := filePath; root := root |}
      | None => None
      end
    else None
  else resolveAgainst filePath roots roots.

(** The paths [resolveScriptPath] tests for [filePath]: the path itself
    when it is absolute, otherwise its resolution against each root. *)
Definition candidates (filePath : string) (roots : list string) : list string :=
  if isAbsolute filePath then [filePath]
  else map (fun root => resolve root filePath) roots.

(** The test a candidate has to pass. *)
Definition accepted (roots : list string) (candidate : string) : bool :=
  isPathInScriptRoots candidate roots && existsSync candidate.

End PathResolver.

Section Search.

(** The [for] loop [for (j = lo; j < hi; j++)] visits these indices. *)
Definition range (lo hi : Z) : list Z :=
  map (fun k => lo + Z.of_nat k) (seq 0 (Z.to_nat (hi - lo))).

(** [lines[j]] inside a template literal. *)
Definition lineAt (lines : list string) (j : Z) : string :=
  if j <? 0 then "undefined" else nth (Z.to_nat j) lines "undefined".

(** [`${j + 1}:\t${lines[j]}`] *)
Definition numbered (lines : list string) (j : Z) : string :=
  JS.toString (j + 1) ++ ":" ++ JS.tab ++ lineAt lines j.

Definition matchAt (lines : list string) (contextLines : Z) (i : Z)
    : SearchMatch :=
  let count := Z.of_nat (List.length lines) in
  let contextBefore :=
    map (numbered lines) (range (Z.max 0 (i - contextLines)) i) in
  let contextAfter :=
    map (numbered lines)
      (range (i + 1) (Z.min (count - 1) (i + contextLines) + 1)) in
  {| line := i + 1;
     content := lineAt lines i;
     context := (contextBefore ++ [numbered lines i] ++ contextAfter)%list |}.




Definition searchLines (lines : list string) (pattern : RegExp)
    (contextLines : Z) : list SearchMatch :=
  flat_map
    (fun i => if pattern (lineAt lines i)
              then [matchAt lines contextLines i] else [])
    (range 0 (Z.of_nat (List.length lines))).

Local Open Scope io_scope.

Definition searchInFile (fs : Fs.FileSystem) (file : FileScanner.ScriptFile)
    (pattern : RegExp) (contextLines : Z) : Fs.IO (list SearchMatch) :=
  read <- Fs.readFileSync fs (FileScanner.absolutePath file) ;;
  match read with
  | Some content =>
      let lines := JS.split (ascii_of_nat 10) content in
      Fs.ret (searchLines lines pattern contextLines)
  | None => Fs.ret []
  end.

Context {P : PathApi}.
Variable localeCompare : string -> string -> Z.

(** [new RegExp(pattern)]: the compiled expression, or the message of the
    [SyntaxError] it throws. *)
Variable RegExp_new : string -> RegExp + string.

Section Handler.

Variables (config : Config.Config) (fs : Fs.FileSystem).
Variables (pattern : string) (context_lines max_results : Z).

(** The inner loop of the handler over the matches of one file. *)
Fixpoint pushMatches (file : FileScanner.ScriptFile)
    (matches : list SearchMatch) (results : list string) (matchCount : Z)
    : list string * Z :=
  match matches with
  | [] => (results, matchCount)
  | m :: rest =>
      if matchCount >=? max_results then (results, matchCount)
      else
        pushMatches file rest
          (List.app results
             [JS.nl ++ FileScanner.relativePath file ++ ":" ++ JS.toString (line m);
              JS.join JS.nl (context m)])
          (matchCount + 1)
  end.

(** The outer loop over the files. *)
Fixpoint searchFiles (regex : RegExp) (files : list FileScanner.ScriptFile)
    (results : list string) (matchCount : Z) : Fs.IO (list string * Z) :=
  match files with
  | [] => Fs.ret (results, matchCount)
  | file :: rest =>
      if matchCount >=? max_results then Fs.ret (results, matchCount)
      else
        matches <- searchInFile fs file regex context_lines ;;
        let '(results, matchCount) :=
          pushMatches file matches results matchCount in
        searchFiles regex rest results matchCount
  end.

Definition NOT_CONFIGURED : string :=
  "Error: Project path not configured. Please set the UE_AS_PROJECT_PATH environment variable.".

Definition NO_ROOTS : string := "Error: No script directories configured.".

Definition INVALID_PATTERN : string := "Error: Invalid regex pattern: ".

(** The handler of the tool [as_search_scripts]: the text of its reply. *)
Definition as_search_scripts : Fs.IO string :=
  if negb (Config.configured config) then Fs.ret NOT_CONFIGURED
  else
    let roots := Config.getScriptRoots config in
    if (List.length roots =? 0)%nat then Fs.ret NO_ROOTS
    else
      match RegExp_new pattern with
      | inr message => Fs.ret (INVALID_PATTERN ++ message)
      | inl regex =>
          files <- FileScanner.scanForScripts localeCompare fs roots ;;
          '(results, matchCount) <- searchFiles regex files [] 0 ;;
          let lines :=
            ["Search pattern: " ++ pattern;
             "Found " ++ JS.toString matchCount ++ " match(es) across "
               ++ JS.toString (Z.of_nat (List.length files)) ++ " file(s)";
             "Showing up to " ++ JS.toString max_results ++ " result(s)" ++ JS.nl]
          in
          Fs.ret (JS.join JS.nl
                    (List.app lines
                       match results with
                       | [] => ["No matches found."]
                       | _ => results
                       end))
      end.

End Handler.

End Search.

End Scripts.

(* ===================================================================== *)
(** ** util/commandlet.ts *)
(* ===================================================================== *)

Module Commandlet.

Record CommandletResult : Type := {
  exitCode : Z;
  stdout : string;
  stderr : string;
  timedOut : bool
}.

(** Maximum bytes to capture per stream (1MB) *)
Definition MAX_OUTPUT_SIZE : Z := 1024 * 1024.

Definition STDOUT_MARKER : string :=
  JS.nl ++ "... [stdout truncated - exceeded 1MB limit]".

Definition STDERR_MARKER : string :=
  JS.nl ++ "... [stderr truncated - exceeded 1MB limit]".

(** The variables the callbacks of one [runCommandlet] call close over,
    with what the call has done to the outside: whether the timeout is
    still scheduled, how many times [proc.kill] was called, and the values
    [resolve] was called with, in order. *)
Record Run : Type := {
  var_stdout : string;
  var_stderr : string;
  stdoutTruncated : bool;
  stderrTruncated : bool;
  var_timedOut : bool;
  finished : bool;
  timerScheduled : bool;
  kills : nat;
  resolveCalls : list CommandletResult
}.

(** The state when the executor of the promise returns. *)
Definition started : Run := {|
  var_stdout := "";
  var_stderr := "";
  stdoutTruncated := false;
  stderrTruncated := false;
  var_timedOut := false;
  finished := false;
  timerScheduled := true;
  kills := 0%nat;
  resolveCalls := []
|}.

(** What the event loop can deliver to the callbacks. *)
Inductive Event : Type :=
| StdoutData (chunk : string)
| StderrData (chunk : string)
| TimerFired
| Close (code : option Z)
| Error (message : string).

(** [proc.stdout.on("data", ...)] *)
Definition onStdoutData (r : Run) (chunk : string) : Run :=
  if JS.length (var_stdout r) <? MAX_OUTPUT_SIZE then
    let remaining := MAX_OUTPUT_SIZE - JS.length (var_stdout r) in
    if JS.length chunk >? remaining then
      {| var_stdout :=
           (var_stdout r ++ JS.substring0 chunk remaining) ++ STDOUT_MARKER;
         var_stderr := var_stderr r;
         stdoutTruncated := true;
         stderrTruncated := stderrTruncated r;
         var_timedOut := var_timedOut r;
         finished := finished r;
         timerScheduled := timerScheduled r;
         kills := kills r;
         resolveCalls := resolveCalls r |}
    else
      {| var_stdout := var_stdout r ++ chunk;
         var_stderr := var_stderr r;
         stdoutTruncated := stdoutTruncated r;
         stderrTruncated := stderrTruncated r;
         var_timedOut := var_timedOut r;
         finished := finished r;
         timerScheduled := timerScheduled r;
         kills := kills r;
         resolveCalls := resolveCalls r |}
  else r.

(** [proc.stderr.on("data", ...)] *)
Definition onStderrData (r : Run) (chunk : string) : Run :=
  if JS.length (var_stderr r) <? MAX_OUTPUT_SIZE then
    let remaining := MAX_OUTPUT_SIZE - JS.length (var_stderr r) in
    if JS.length chunk >? remaining then
      {| var_stdout := var_stdout r;
         var_stderr :=
           (var_stderr r ++ JS.substring0 chunk remaining) ++ STDERR_MARKER;
         stdoutTruncated := stdoutTruncated r;
         stderrTruncated := true;
         var_timedOut := var_timedOut r;
         finished := finished r;
         timerScheduled := timerScheduled r;
         kills := kills r;
         resolveCalls := resolveCalls r |}
    else
      {| var_stdout := var_stdout r;
         var_stderr := var_stderr r ++ chunk;
         stdoutTruncated := stdoutTruncated r;
         stderrTruncated := stderrTruncated r;
         var_timedOut := var_timedOut r;
         finished := finished r;
         timerScheduled := timerScheduled r;
         kills := kills r;
         resolveCalls := resolveCalls r |}
  else r.

(** The callback of [setTimeout]; the timer is spent once it has run. *)
Definition onTimeout (r : Run) : Run :=
  if negb (finished r) then
    {| var_stdout := var_stdout r;
       var_stderr := var_stderr r;
       stdoutTruncated := stdoutTruncated r;
       stderrTruncated := stderrTruncated r;
       var_timedOut := true;
       finished := finished r;
       timerScheduled := false;
       kills := S (kills r);
       resolveCalls := resolveCalls r |}
  else
    {| var_stdout := var_stdout r;
       var_stderr := var_stderr r;
       stdoutTruncated := stdoutTruncated r;
       stderrTruncated := stderrTruncated r;
       var_timedOut := var_timedOut r;
       finished := finished r;
       timerScheduled := false;
       kills := kills r;
       resolveCalls := resolveCalls r |}.

(** [proc.on("close", ...)] *)
Definition onClose (r : Run) (code : option Z) : Run :=
  let exitCode := match code with Some c => c | None => -1 end in
  {| var_stdout := var_stdout r;
     var_stderr := var_stderr r;
     stdoutTruncated := stdoutTruncated r;
     stderrTruncated := stderrTruncated r;
     var_timedOut := var_timedOut r;
     finished := true;
     timerScheduled := false;
     kills := kills r;
     resolveCalls :=
       (resolveCalls r ++
        [{| exitCode := exitCode;
            stdout := var_stdout r;
            stderr := var_stderr r;
            timedOut := var_timedOut r |}])%list |}.

(** [proc.on("error", ...)] *)
Definition onError (r : Run) (message : string) : Run :=
  {| var_stdout := var_stdout r;
     var_stderr := var_stderr r;
     stdoutTruncated := stdoutTruncated r;
     stderrTruncated := stderrTruncated r;
     var_timedOut := var_timedOut r;
     finished := true;
     timerScheduled := false;
     kills := kills r;
     resolveCalls :=
       (resolveCalls r ++
        [{| exitCode := -1;
            stdout := var_stdout r;
            stderr := var_stderr r ++ (JS.nl ++ "Spawn error: " ++ message)%string;
            timedOut := false |}])%list |}.

(** One turn of the event loop: callbacks run to completion, one at a
    time.  A timer that was cleared, or that has fired, does not fire. *)
Definition step (r : Run) (e : Event) : Run :=
  match e with
  | StdoutData chunk => onStdoutData r chunk
  | StderrData chunk => onStderrData r chunk
  | TimerFired => if timerScheduled r then onTimeout r else r
  | Close code => onClose r code
  | Error message => onError r message
  end.

Definition deliver (events : list Event) : Run := fold_left step events started.

(** The value of the promise [runCommandlet] returns: a promise is settled
    by the first call of [resolve], later calls do nothing; it is pending
    ([None]) while [resolve] has not been called. *)
Definition settled (r : Run) : option CommandletResult :=
  hd_error (resolveCalls r).

(** [runCommandlet] once [spawn] has returned the child: its arguments
    decide which process is spawned and when the timer fires, that is
    which events the callbacks receive; the result is a function of those
    events. *)
Definition runCommandlet (events : list Event) : option CommandletResult :=
  settled (deliver events).

(** The events that end a run: the exit of the process and the failure to
    start it. *)
Definition isClose (e : Event) : bool :=
  match e with Close _ => true | _ => false end.

Definition isError (e : Event) : bool :=
  match e with Error _ => true | _ => false end.

Definition terminal (e : Event) : bool := isClose e || isError e.

(** No event of the list ends the run. *)
Definition quiet (events : list Event) : bool :=
  forallb (fun e => negb (terminal e)) events.

Definition closes (events : list Event) : nat :=
  List.length (filter isClose events).

Definition errors (events : list Event) : nat :=
  List.length (filter isError events).

(** What holds of a run while no event has ended it: [resolve] has not
    been called, and the process was killed exactly when the timer fired,
    which is when [timedOut] was set. *)
Definition running (r : Run) : Prop :=
  resolveCalls r = [] /\ finished r = false /\
  (kills r <= 1)%nat /\
  (var_timedOut r = true <-> kills r = 1%nat) /\
  (timerScheduled r = true -> kills r = 0%nat).

(** A chunk of [2^n] copies of [s]. *)
Fixpoint doubled (n : nat) (s : string) : string :=
  match n with
  | O => s
  | S k => doubled k (s ++ s)
  end.

(** One mebibyte of the letter [a]. *)
Definition mebibyte : string := doubled 20 "a".

End Commandlet.

(* ===================================================================== *)
(** ** util/commandlet.ts: the call as a whole *)
(* ===================================================================== *)

Module Executor.

(** What the call [spawn(editorPath, cmdArgs, options)] does: it returns
    the child process, and the event loop then delivers the events of the
    child and of the timer to the callbacks, or it throws. *)
Inductive Spawn : Type :=
| Child (events : list Commandlet.Event)
| Throws (error : string).

(** How a promise stands: pending, resolved with a value, or rejected
    with what was thrown. *)
Inductive Promise (A : Type) : Type :=
| Pending
| Resolved (value : A)
| Rejected (error : string).

Arguments Pending {A}.
Arguments Resolved {A} value.
Arguments Rejected {A} error.

(** [[projectPath, `-run=${commandlet}`, ...args]] *)
Definition cmdArgs (projectPath commandlet : string) (args : list string)
    : list string :=
  projectPath :: ("-run=" ++ commandlet) :: args.

Section WithSpawn.

(** [child_process.spawn], for the options of the call. *)
Variable spawn : string -> list string -> Spawn.

(** [runCommandlet(editorPath, projectPath, commandlet, args, timeoutMs)].
    The executor of the promise calls [spawn] outside any [try], and the
    promise has no [reject] of its own: what [spawn] throws leaves the
    executor, before the timer is set and any callback is registered, and
    rejects the promise.  Otherwise the promise is settled by the first
    call of [resolve] the callbacks make. *)
Definition runCommandlet (editorPath projectPath commandlet : string)
    (args : list string) : Promise Commandlet.CommandletResult :=
  match spawn editorPath (cmdArgs projectPath commandlet args) with
  | Throws error => Rejected error
  | Child events =>
      match Commandlet.runCommandlet events with
      | Some result => Resolved result
      | None => Pending
      end
  end.

End WithSpawn.

End Executor.

(* ===================================================================== *)
(** ** File systems and inputs to run the code on *)
(* ===================================================================== *)

Module Fixtures.

(** Two roots side by side, [/a/x] and [/a/y], and a root [/proj/Script]
    next to a directory [/proj/Script2] whose name it is a prefix of. *)
Definition disk : Fs.FileSystem := {|
  Fs.cwd := "/";
  Fs.tree :=
    Fs.Dir
      [("a", Fs.Dir [("x", Fs.Dir []);
                     ("y", Fs.Dir [("f.as", Fs.File 3 "abc")])]);
       ("proj", Fs.Dir [("Script", Fs.Dir [("A.as", Fs.File 9 "TODO: fix")]);
                        ("Script2", Fs.Dir [("x.as", Fs.File 1 "x")])])]
|}.

(** A root with the files [a.as] and [B.as], listed in that order. *)
Definition twoScripts : Fs.FileSystem := {|
  Fs.cwd := "/";
  Fs.tree :=
    Fs.Dir [("proj", Fs.Dir [("Script", Fs.Dir [("a.as", Fs.File 1 "a");
                                                 ("B.as", Fs.File 1 "B")])])]
|}.

Definition lowerCase (c : ascii) : ascii :=
  let n := nat_of_ascii c in
  if ((65 <=? n) && (n <=? 90))%nat then ascii_of_nat (n + 32) else c.

Fixpoint lowered (s : string) : string :=
  match s with
  | EmptyString => EmptyString
  | String c r => String (lowerCase c) (lowered r)
  end.

(** A collation of the kind [localeCompare] applies: letters are ordered
    alphabetically whatever their case, and case decides between strings
    that differ in nothing else, lower case first. *)
Definition alphabetical (a b : string) : Z :=
  let primary := JS.codePointCompare (lowered a) (lowered b) in
  if primary =? 0 then JS.codePointCompare b a else primary.

(** A file of ten lines, [l1] to [l10]. *)
Definition tenLines : list string :=
  ["l1"; "l2"; "l3"; "l4"; "l5"; "l6"; "l7"; "l8"; "l9"; "l10"].

Definition tenLineDisk : Fs.FileSystem := {|
  Fs.cwd := "/";
  Fs.tree :=
    Fs.Dir [("s", Fs.Dir [("ten.as", Fs.File 32 (JS.join JS.nl tenLines));
                          ("occ.as", Fs.File 10 (JS.join JS.nl ["aaa"; "b"; "abca"]))])]
|}.


(** The test of a flagless [RegExp] made of letters and digits only: the
    line contains the text. *)
Definition containing (text : string) : Scripts.RegExp :=
  fun line =>
    match String.index 0 text line with Some _ => true | None => false end.


(** [new RegExp] on the two kinds of pattern the runs below use: the
    pattern [(] is rejected as an unterminated group, and a pattern made of
    letters and digits tests for its text. *)
Definition compile (pattern : string) : Scripts.RegExp + string :=
  if String.eqb pattern "("
  then inr "Invalid regular expression: /(/: Unterminated group"
  else inl (containing pattern).

(** A game project found at [/proj], and no project at all. *)
Definition project : Config.Config := {|
  Config.projectPath := Some "/proj";
  Config.editorCmd := None;
  Config.extraScriptRoots := [];
  Config.isEngineTree := false
|}.

Definition noProject : Config.Config := {|
  Config.projectPath := None;
  Config.editorCmd := None;
  Config.extraScriptRoots := [];
  Config.isEngineTree := false
|}.

(** [child_process.spawn] on a machine without the editor: an empty file
    name is refused by an exception of the call itself, and any other
    file is missing, which the child reports by its [error] event,
    followed by [close]. *)
Definition spawnWithoutEditor (file : string) (args : list string)
    : Executor.Spawn :=
  if String.eqb file ""
  then Executor.Throws "The argument 'file' cannot be empty. Received ''"
  else
    Executor.Child
      [Commandlet.Error ("spawn " ++ file ++ " ENOENT");
       Commandlet.Close (Some (-2))].

End Fixtures.

(* ===================================================================== *)
(** ** More of the JavaScript library *)
(* ===================================================================== *)

Module JSText.

(** [c.toLowerCase()] for one code unit below 256: the capital letters
    [A] to [Z], and the accented capitals from 192 to 222 except the
    multiplication sign 215, lie 32 below their small letters. *)
Definition lowerChar (c : ascii) : ascii :=
  let n := nat_of_ascii c in
  if ((65 <=? n) && (n <=? 90) || (192 <=? n) && (n <=? 214)
      || (216 <=? n) && (n <=? 222))%nat
  then ascii_of_nat (n + 32) else c.

(** [s.toLowerCase()] *)
Fixpoint toLowerCase (s : string) : string :=
  match s with
  | EmptyString => EmptyString
  | String c r => String (lowerChar c) (toLowerCase r)
  end.

(** [s.includes(sub)] *)
Fixpoint includes (s sub : string) : bool :=
  JS.startsWith s sub ||
  match s with
  | String _ r => includes r sub
  | EmptyString => false
  end.

(** [s.replace(/c/g, "")] for one character [c]. *)
Fixpoint removeAll (c : ascii) (s : string) : string :=
  match s with
  | EmptyString => EmptyString
  | String a r => if Ascii.eqb a c then removeAll c r else String a (removeAll c r)
  end.

(** [l.slice(start, stop)] for integers: a negative bound counts from the
    end, and both are clamped to the array. *)
Definition slice {A} (l : list A) (start stop : Z) : list A :=
  let len := Z.of_nat (List.length l) in
  let from := if start <? 0 then Z.max (len + start) 0 else Z.min start len in
  let to := if stop <? 0 then Z.max (len + stop) 0 else Z.min stop len in
  firstn (Z.to_nat (to - from)) (skipn (Z.to_nat from) l).

(** [l.map((x, idx) => f(x, idx))] *)
Fixpoint mapFrom {A B} (f : A -> Z -> B) (idx : Z) (l : list A) : list B :=
  match l with
  | [] => []
  | x :: t => f x idx :: mapFrom f (idx + 1) t
  end.

Definition mapIndexed {A B} (f : A -> Z -> B) (l : list A) : list B :=
  mapFrom f 0 l.

(** [s.repeat(n)] *)
Fixpoint repeat (s : string) (n : nat) : string :=
  match n with
  | O => ""
  | S k => s ++ repeat s k
  end.

(** [(size / 1024).toFixed(1)] for a size in bytes, a natural number below
    2^53: the quotient is exact, and [toFixed] takes the nearest tenth,
    the larger one of two equally near. *)
Definition kilobytes (size : Z) : string :=
  let tenths := (10 * size + 512) / 1024 in
  JS.toString (tenths / 10) ++ "." ++ JS.toString (tenths mod 10).

End JSText.

(* ===================================================================== *)
(** ** tools/scripts.ts: reading and listing *)
(* ===================================================================== *)

Module ScriptTools.

(** [startLine ? Math.max(1, startLine) - 1 : 0] *)
Definition startIndex (startLine : option Z) : Z :=
  match startLine with
  | Some a => if a =? 0 then 0 else Z.max 1 a - 1
  | None => 0
  end.

(** [endLine ? Math.min(lines.length, endLine) : lines.length] *)
Definition endIndex (count : Z) (endLine : option Z) : Z :=
  match endLine with
  | Some b => if b =? 0 then count else Z.min count b
  | None => count
  end.

(** The body of [readFileWithLines] once the file is read. *)
Definition numberLines (content : string) (startLine endLine : option Z)
    : string :=
  let lines := JS.split (ascii_of_nat 10) content in
  let start := startIndex startLine in
  let stop := endIndex (Z.of_nat (List.length lines)) endLine in
  let selectedLines := JSText.slice lines start stop in
  JS.join JS.nl
    (JSText.mapIndexed
       (fun line idx => JS.toString (start + idx + 1) ++ ":" ++ JS.tab ++ line)
       selectedLines).

Local Open Scope io_scope.

(** [readFileWithLines]: [None] when [readFileSync] throws. *)
Definition readFileWithLines (fs : Fs.FileSystem) (filePath : string)
    (startLine endLine : option Z) : Fs.IO (option string) :=
  read <- Fs.readFileSync fs filePath ;;
  Fs.ret (option_map (fun content => numberLines content startLine endLine) read).

(** Simple substring pattern matching for file paths. *)
Definition matchesPattern (relativePath pattern : string) : bool :=
  let normalizedPath := JSText.toLowerCase relativePath in
  let normalizedPattern :=
    JSText.removeAll "*"%char (JSText.toLowerCase pattern) in
  JSText.includes normalizedPath normalizedPattern.

Section Handlers.

Context {P : PathApi}.
Variable localeCompare : string -> string -> Z.

(** The message of the error [readFileSync] throws for a path. *)
Variable readErrorMessage : string -> string.

Variables (config : Config.Config) (fs : Fs.FileSystem).

Definition LIST_NOT_CONFIGURED : string :=
  "Error: Project path not configured. Please set the UE_AS_PROJECT_PATH environment variable to your Unreal project root directory (containing .uproject file).".

Definition LIST_NO_ROOTS : string :=
  "No script directories found. Expected Script/ or Scripts/ in project root, or configure UE_AS_EXTRA_SCRIPT_ROOTS.".

(** [pattern] as a condition: [undefined] and the empty string are falsy. *)
Definition given (pattern : option string) : bool :=
  match pattern with
  | Some p => negb (JS.falsy p)
  | None => false
  end.

Definition patternText (pattern : option string) : string :=
  match pattern with Some p => p | None => "" end.

(** The files the listing is made of: the scan, filtered when a pattern
    is given. *)
Definition listed (pattern : option string)
    (files : list FileScanner.ScriptFile) : list FileScanner.ScriptFile :=
  if given pattern
  then filter (fun f => matchesPattern (FileScanner.relativePath f)
                          (patternText pattern)) files
  else files.

(** The text of the reply of [as_list_scripts] for the files found. *)
Definition listingText (pattern : option string) (max_results : Z)
    (files : list FileScanner.ScriptFile) : string :=
  let total := Z.of_nat (List.length files) in
  let files := JSText.slice files 0 max_results in
  let lines :=
    ["Found " ++ JS.toString total ++ " script file(s)"
       ++ (if given pattern
           then " matching '" ++ patternText pattern ++ "'" else "");
     "Showing " ++ JS.toString (Z.of_nat (List.length files))
       ++ " result(s)" ++ JS.nl] in
  JS.join JS.nl
    (List.app lines
       match files with
       | [] => ["No matching files found."]
       | _ =>
           List.app
             (map (fun file =>
                     FileScanner.relativePath file ++ " ("
                       ++ JSText.kilobytes (FileScanner.size file) ++ " KB)")
                files)
             (if total >? max_results
              then [JS.nl ++ "... and " ++ JS.toString (total - max_results)
                      ++ " more file(s). Increase max_results to see more."]
              else [])
       end).

(** The handler of the tool [as_list_scripts]. *)
Definition as_list_scripts (pattern : option string) (max_results : Z)
    : Fs.IO string :=
  if negb (Config.configured config) then Fs.ret LIST_NOT_CONFIGURED
  else
    let roots := Config.getScriptRoots config in
    if (List.length roots =? 0)%nat then Fs.ret LIST_NO_ROOTS
    else
      files <- FileScanner.scanForScripts localeCompare fs roots ;;
      Fs.ret (listingText pattern max_results (listed pattern files)).

Definition notFoundText (filePath : string) (roots : list string) : string :=
  "Error: File not found or access denied: " ++ filePath ++ JS.nl ++ JS.nl
    ++ "The file must be within one of the configured script roots:" ++ JS.nl
    ++ JS.join JS.nl (map (fun r => "  - " ++ r) roots).

(** The handler of the tool [as_read_script].  The trace records the
    read of the file; the probes of [existsSync] inside
    [resolveScriptPath] are not recorded. *)
Definition as_read_script (filePath : string) (start_line end_line : option Z)
    : Fs.IO string :=
  if negb (Config.configured config) then Fs.ret Scripts.NOT_CONFIGURED
  else
    let roots := Config.getScriptRoots config in
    if (List.length roots =? 0)%nat then Fs.ret Scripts.NO_ROOTS
    else
      match Scripts.resolveScriptPath (Fs.exists_ fs) filePath roots with
      | None => Fs.ret (notFoundText filePath roots)
      | Some resolved =>
          read <- readFileWithLines fs (Scripts.absolutePath resolved)
                    start_line end_line ;;
          match read with
          | Some content =>
              let relativePath :=
                relative (Scripts.root resolved) (Scripts.absolutePath resolved) in
              Fs.ret ("File: " ++ relativePath ++ JS.nl
                        ++ JSText.repeat "=" 60 ++ JS.nl ++ content)
          | None =>
              Fs.ret ("Error reading file: "
                        ++ readErrorMessage (Scripts.absolutePath resolved))
          end
      end.

End Handlers.

End ScriptTools.

(* ===================================================================== *)
(** ** util/commandlet.ts: what the events carry *)
(* ===================================================================== *)

Module Streams.

(** Everything the process wrote to [stdout], in order. *)
Fixpoint stdoutData (events : list Commandlet.Event) : string :=
  match events with
  | [] => ""
  | Commandlet.StdoutData chunk :: rest => chunk ++ stdoutData rest
  | _ :: rest => stdoutData rest
  end.

(** Everything the process wrote to [stderr], in order. *)
Fixpoint stderrData (events : list Commandlet.Event) : string :=
  match events with
  | [] => ""
  | Commandlet.StderrData chunk :: rest => chunk ++ stderrData rest
  | _ :: rest => stderrData rest
  end.

Definition isTimer (e : Commandlet.Event) : bool :=
  match e with Commandlet.TimerFired => true | _ => false end.

(** The timer fired among the events. *)
Definition timerFired (events : list Commandlet.Event) : bool :=
  existsb isTimer events.

(** What the handler of an event that ends the run passes to [resolve],
    in the state [r]. *)
Definition resultOf (r : Commandlet.Run) (e : Commandlet.Event)
    : option Commandlet.CommandletResult :=
  match e with
  | Commandlet.Close code =>
      Some {| Commandlet.exitCode := match code with Some c => c | None => -1 end;
              Commandlet.stdout := Commandlet.var_stdout r;
              Commandlet.stderr := Commandlet.var_stderr r;
              Commandlet.timedOut := Commandlet.var_timedOut r |}
  | Commandlet.Error message =>
      Some {| Commandlet.exitCode := -1;
              Commandlet.stdout := Commandlet.var_stdout r;
              Commandlet.stderr :=
                Commandlet.var_stderr r ++ JS.nl ++ "Spawn error: " ++ message;
              Commandlet.timedOut := false |}
  | _ => None
  end.

(** The shape of a buffer: the first [MAX_OUTPUT_SIZE] characters of the
    data, and the marker after them when the flag is set. *)
Definition holds (buffer : string) (truncated : bool) (marker data : string)
    : Prop :=
  buffer = JS.substring0 data Commandlet.MAX_OUTPUT_SIZE
           ++ (if truncated then marker else "")
  /\ (truncated = true -> Commandlet.MAX_OUTPUT_SIZE < JS.length data).

End Streams.

(* ===================================================================== *)
(** ** context/loader.ts and context/search.ts *)
(* ===================================================================== *)

Module Docs.

(** An entry of [categories], as the loader and the search use it. *)
Record Category : Type := {
  categoryId : string;
  name : string;
  description : string;
  keywords : list string
}.

Record DocChunk : Type := {
  id : string;
  source : string;
  heading : string;
  level : Z;
  content : string;
  categories : list string
}.

(** The chunk being collected: [{heading, level, lines}]. *)
Record RawChunk : Type := {
  rawHeading : string;
  rawLevel : Z;
  rawLines : list string
}.

Definition CR : ascii := ascii_of_nat 13.
Definition LF : ascii := ascii_of_nat 10.

(** [s.replace(/\r\n/g, "\n")] *)
Fixpoint replaceCRLF (s : string) : string :=
  match s with
  | EmptyString => EmptyString
  | String c r =>
      match r with
      | String d r' =>
          if Ascii.eqb c CR && Ascii.eqb d LF
          then String LF (replaceCRLF r')
          else String c (replaceCRLF r)
      | EmptyString => String c EmptyString
      end
  end.

(** [s.replace(/\r/g, "\n")] *)
Fixpoint replaceCR (s : string) : string :=
  match s with
  | EmptyString => EmptyString
  | String c r => String (if Ascii.eqb c CR then LF else c) (replaceCR r)
  end.

(** The characters [.] matches: all but the line terminators. *)
Fixpoint noLineTerminator (s : string) : bool :=
  match s with
  | EmptyString => true
  | String c r => negb (Ascii.eqb c CR || Ascii.eqb c LF) && noLineTerminator r
  end.

(** [line.match(/^marker(.+)$/)]: the text captured, for a literal
    [marker]. *)
Definition matchAfter (marker line : string) : option string :=
  if JS.startsWith line marker then
    let rest :=
      String.substring (String.length marker)
        (String.length line - String.length marker) line in
    if negb (String.eqb rest "") && noLineTerminator rest
    then Some rest else None
  else None.

(** [line.match(/^## (.+)$/)] and [line.match(/^### (.+)$/)] *)
Definition h2Match (line : string) : option string := matchAfter "## " line.
Definition h3Match (line : string) : option string := matchAfter "### " line.

Definition isSlugChar (c : ascii) : bool :=
  let n := nat_of_ascii c in
  ((97 <=? n) && (n <=? 122) || (48 <=? n) && (n <=? 57))%nat.

(** [s.replace(/[^a-z0-9]+/g, "-")]: [inRun] says that the character
    before was replaced. *)
Fixpoint dashRuns (inRun : bool) (s : string) : string :=
  match s with
  | EmptyString => EmptyString
  | String c r =>
      if isSlugChar c then String c (dashRuns false r)
      else if inRun then dashRuns true r
      else String "-"%char (dashRuns true r)
  end.

Definition dropLeadingDash (s : string) : string :=
  match s with
  | String c r => if Ascii.eqb c "-"%char then r else s
  | EmptyString => EmptyString
  end.

Fixpoint dropTrailingDash (s : string) : string :=
  match s with
  | EmptyString => EmptyString
  | String c EmptyString => if Ascii.eqb c "-"%char then EmptyString else s
  | String c r => String c (dropTrailingDash r)
  end.

(** Create a URL-safe slug from heading text. *)
Definition slugify (text : string) : string :=
  dropTrailingDash (dropLeadingDash (dashRuns false (JSText.toLowerCase text))).

Definition isRegexSpecial (c : ascii) : bool :=
  existsb (Ascii.eqb c)
    ["."; "*"; "+"; "?"; "^"; "$"; "{"; "}"; "("; ")"; "|"; "["; "]"; "\"]%char.

(** Escape special regex characters. *)
Fixpoint escapeRegex (str : string) : string :=
  match str with
  | EmptyString => EmptyString
  | String c r =>
      if isRegexSpecial c then String "\"%char (String c (escapeRegex r))
      else String c (escapeRegex r)
  end.

Section Loader.

(** The table [categories] of [categories.ts]. *)
Variable allCategories : list Category.

(** [new RegExp(source, "i").test(subject)] *)
Variable testIgnoringCase : string -> string -> bool.

(** Categorize a chunk by counting keyword matches. *)
Definition categorizeChunk (content : string) : list string :=
  let lowerContent := JSText.toLowerCase content in
  map categoryId
    (filter
       (fun category =>
          let matchCount :=
            List.length
              (filter
                 (fun keyword =>
                    let lowerKeyword := JSText.toLowerCase keyword in
                    testIgnoringCase
                      ("\b" ++ escapeRegex lowerKeyword ++ "\b") lowerContent)
                 (keywords category)) in
          (2 <=? matchCount)%nat)
       allCategories).

(** Convert a raw chunk into a DocChunk with categorization. *)
Definition finalizeChunk (raw : RawChunk) (source : string) : DocChunk :=
  let content := JS.join JS.nl (rawLines raw) in
  {| id := source ++ ":" ++ slugify (rawHeading raw);
     source := source;
     heading := rawHeading raw;
     level := rawLevel raw;
     content := content;
     categories := categorizeChunk content |}.

(** The loop of [chunkMarkdown] over the lines. *)
Fixpoint chunkLines (source : string) (lines : list string)
    (chunks : list DocChunk) (currentChunk : option RawChunk)
    : list DocChunk * option RawChunk :=
  match lines with
  | [] => (chunks, currentChunk)
  | line :: rest =>
      match h2Match line, h3Match line with
      | None, None =>
          match currentChunk with
          | Some chunk =>
              chunkLines source rest chunks
                (Some {| rawHeading := rawHeading chunk;
                         rawLevel := rawLevel chunk;
                         rawLines := (rawLines chunk ++ [line])%list |})
          | None => chunkLines source rest chunks None
          end
      | h2, h3 =>
          let chunks :=
            match currentChunk with
            | Some chunk => (chunks ++ [finalizeChunk chunk source])%list
            | None => chunks
            end in
          let heading :=
            match h2, h3 with
            | Some text, _ => text
            | None, Some text => text
            | None, None => ""
            end in
          let level := match h2 with Some _ => 2 | None => 3 end in
          chunkLines source rest chunks
            (Some {| rawHeading := heading;
                     rawLevel := level;
                     rawLines := [line] |})
      end
  end.

(** Split markdown content into chunks by H2 and H3 headings. *)
Definition chunkMarkdown (content source : string) : list DocChunk :=
  let normalizedContent := replaceCR (replaceCRLF content) in
  let lines := JS.split LF normalizedContent in
  let '(chunks, currentChunk) := chunkLines source lines [] None in
  match currentChunk with
  | Some chunk => (chunks ++ [finalizeChunk chunk source])%list
  | None => chunks
  end.

(** [getByCategory], [searchChunks] and [getCategorySummary] over the
    chunks [loadDocChunks] returns. *)
Variable chunks : list DocChunk.

Definition getByCategory (category : string) : list DocChunk :=
  filter (fun chunk => existsb (String.eqb category) (categories chunk)) chunks.

Definition searchChunks (query : string) : list DocChunk :=
  let lowerQuery := JSText.toLowerCase query in
  filter
    (fun chunk =>
       let lowerHeading := JSText.toLowerCase (heading chunk) in
       let lowerContent := JSText.toLowerCase (content chunk) in
       JSText.includes lowerHeading lowerQuery
       || JSText.includes lowerContent lowerQuery)
    chunks.

Definition getCategorySummary : list (string * string * string * Z) :=
  map (fun cat =>
         let chunkCount :=
           List.length
             (filter (fun chunk =>
                        existsb (String.eqb (categoryId cat)) (categories chunk))
                chunks) in
         (categoryId cat, name cat, description cat, Z.of_nat chunkCount))
    allCategories.

End Loader.

End Docs.

(* ===================================================================== *)
(** ** Notions the further properties are stated with *)
(* ===================================================================== *)

Module Observations.

(** The call reads the content of a file. *)
Definition isContentRead (op : Fs.FsOp) : bool :=
  match op with Fs.ReadFileSync _ => true | _ => false end.

(** An entry [scanDirectory] passes over: a directory of [SKIP_DIRS], or
    an entry that is neither a directory nor a regular file whose name
    ends in [.as]. *)
Definition passedOver (name : string) (entry : Fs.Node) : bool :=
  if Fs.isDirectory entry then FileScanner.skipped name
  else negb (Fs.isFile entry && JS.endsWith name ".as").

(** The file has the relative path [path]. *)
Definition hasRelativePath (path : string) (file : FileScanner.ScriptFile)
    : bool :=
  String.eqb (FileScanner.relativePath file) path.

(** What a scan adds to the accumulator, and the calls it makes: files
    of the root [rootDir] after the results it started from, and no read
    of a file's content. *)
Definition scanAdds (rootDir : string) (results : list FileScanner.ScriptFile)
    (scan : Fs.IO (list FileScanner.ScriptFile)) : Prop :=
  (exists added,
     Fs.value scan = (results ++ added)%list /\
     Forall (fun f => FileScanner.root f = rootDir) added) /\
  Forall (fun op => isContentRead op = false) (Fs.trace scan).

Section Loop.

Context {P : PathApi}.
Variables (dir rootDir : string).

(** The loop of [scanDirectory] over the entries of the directory [dir],
    by itself. *)
Fixpoint eachEntry (es : list (string * Fs.Node))
    (results : list FileScanner.ScriptFile)
    : Fs.IO (list FileScanner.ScriptFile) :=
  match es with
  | [] => Fs.ret results
  | (name, entry) :: rest =>
      let fullPath := join dir name in
      if Fs.isDirectory entry then
        if FileScanner.skipped name then eachEntry rest results
        else
          Fs.bind (FileScanner.scanDirectory entry fullPath rootDir results)
            (fun rs => eachEntry rest rs)
      else if Fs.isFile entry && JS.endsWith name ".as" then
        Fs.bind
          (match Fs.statNode entry with
           | Some stats =>
               (results ++
                  [{| FileScanner.absolutePath := fullPath;
                      FileScanner.relativePath :=
                        FileScanner.toForwardSlashes (relative rootDir fullPath);
                      FileScanner.root := rootDir;
                      FileScanner.size := Fs.statSize stats |}])%list
           | None => results
           end, [Fs.StatSync fullPath])
          (fun rs => eachEntry rest rs)
      else eachEntry rest results
  end.

End Loop.

(** The matches of all the files, each with its file, in the order of the
    files and of the lines. *)
Definition allMatches (fs : Fs.FileSystem) (regex : Scripts.RegExp)
    (contextLines : Z) (files : list FileScanner.ScriptFile)
    : list (FileScanner.ScriptFile * Scripts.SearchMatch) :=
  flat_map
    (fun file =>
       map (fun m => (file, m))
         (Fs.value (Scripts.searchInFile fs file regex contextLines)))
    files.

(** The two strings the handler of [as_search_scripts] pushes for a
    match. *)
Definition reported (found : FileScanner.ScriptFile * Scripts.SearchMatch)
    : list string :=
  [JS.nl ++ FileScanner.relativePath (fst found) ++ ":"
     ++ JS.toString (Scripts.line (snd found));
   JS.join JS.nl (Scripts.context (snd found))].

(** The line is a heading of level 2 or 3. *)
Definition isHeading (line : string) : bool :=
  match Docs.h2Match line, Docs.h3Match line with
  | None, None => false
  | _, _ => true
  end.

(** The lines from the first heading on. *)
Fixpoint fromFirstHeading (lines : list string) : list string :=
  match lines with
  | [] => []
  | line :: rest => if isHeading line then lines else fromFirstHeading rest
  end.

(** The lines of the chunk being collected. *)
Definition pendingLines (current : option Docs.RawChunk) : list string :=
  match current with Some raw => Docs.rawLines raw | None => [] end.

(** The number of chunks being collected: one or none. *)
Definition collecting (current : option Docs.RawChunk) : nat :=
  match current with Some _ => 1 | None => 0 end.

(** A chunk being collected begins with its heading line. *)
Definition wellBegun (raw : Docs.RawChunk) : Prop :=
  Docs.rawHeading raw <> "" /\
  exists more,
    (Docs.rawLevel raw = 2 /\
     Docs.rawLines raw = ("## " ++ Docs.rawHeading raw) :: more) \/
    (Docs.rawLevel raw = 3 /\
     Docs.rawLines raw = ("### " ++ Docs.rawHeading raw) :: more).

(** A chunk of the document [source]: its text begins with its heading
    line, of its level. *)
Definition wellFormed (source : string) (chunk : Docs.DocChunk) : Prop :=
  Docs.source chunk = source /\
  Docs.id chunk = source ++ ":" ++ Docs.slugify (Docs.heading chunk) /\
  Docs.heading chunk <> "" /\
  exists rest,
    (rest = "" \/ exists text, rest = String Docs.LF text) /\
    ((Docs.level chunk = 2 /\
      Docs.content chunk = "## " ++ Docs.heading chunk ++ rest) \/
     (Docs.level chunk = 3 /\
      Docs.content chunk = "### " ++ Docs.heading chunk ++ rest)).

(** The characters of a slug: small letters, digits and the dash. *)
Fixpoint slugSafe (s : string) : bool :=
  match s with
  | EmptyString => true
  | String c r => (Docs.isSlugChar c || Ascii.eqb c "-"%char) && slugSafe r
  end.

(** A dash begins the text, and a dash ends it. *)
Definition leadingDash (s : string) : bool :=
  match s with String c _ => Ascii.eqb c "-"%char | EmptyString => false end.

Fixpoint trailingDash (s : string) : bool :=
  match s with
  | EmptyString => false
  | String c EmptyString => Ascii.eqb c "-"%char
  | String _ r => trailingDash r
  end.

(** No two dashes stand side by side. *)
Fixpoint singleDashes (s : string) : bool :=
  match s with
  | EmptyString => true
  | String c r =>
      negb (Ascii.eqb c "-"%char && leadingDash r) && singleDashes r
  end.

(** The test [searchChunks] makes on the text of a chunk alone. *)
Definition contentHas (query : string) (chunk : Docs.DocChunk) : bool :=
  JSText.includes (JSText.toLowerCase (Docs.content chunk))
    (JSText.toLowerCase query).

End Observations.

Module Samples.

(** Two roots that both hold a [Main.as]. *)
Definition twins : Fs.FileSystem := {|
  Fs.cwd := "/";
  Fs.tree :=
    Fs.Dir [("one", Fs.Dir [("Main.as", Fs.File 1 "1")]);
            ("two", Fs.Dir [("Main.as", Fs.File 2 "22")])]
|}.

(** A root with a [.git] directory and a text file beside a script. *)
Definition cluttered : list (string * Fs.Node) :=
  [(".git", Fs.Dir [("hook.as", Fs.File 4 "hook")]);
   ("notes.txt", Fs.File 5 "notes");
   ("Game.as", Fs.File 4 "game")].

(** A table of two categories, the second with one keyword only. *)
Definition table : list Docs.Category :=
  [{| Docs.categoryId := "networking";
      Docs.name := "Networking";
      Docs.description := "Replication and remote calls";
      Docs.keywords := ["replicated"; "netmulticast"; "server"] |};
   {| Docs.categoryId := "testing";
      Docs.name := "Testing";
      Docs.description := "Unit tests";
      Docs.keywords := ["test"] |}].

(** A document with a preamble and one section. *)
Definition handbook : string :=
  "# Handbook" ++ JS.nl ++ "## Remote calls" ++ JS.nl
    ++ "A replicated value is set on the server.".

(** A test that finds the keyword as a part of the subject, the word
    boundaries of the pattern taken off. *)
Definition containsKeyword (pattern subject : string) : bool :=
  JSText.includes subject
    (String.substring 2 (String.length pattern - 4) pattern).

End Samples.

(* ===================================================================== *)
(** * Properties *)
(* ===================================================================== *)

(** ** Strings *)

Lemma string_length_app (s t : string) :
  String.length (s ++ t) = (String.length s + String.length t)%nat.
Proof. induction s as [|c s IH]; simpl; [reflexivity | now rewrite IH]. Qed.

Lemma js_length_app (s t : string) :
  JS.length (s ++ t) = JS.length s + JS.length t.
Proof. unfold JS.length. rewrite string_length_app. lia. Qed.

Lemma js_length_nonneg (s : string) : 0 <= JS.length s.
Proof. unfold JS.length. lia. Qed.

Lemma string_app_nil_r (s : string) : s ++ "" = s.
Proof. induction s as [|c s IH]; simpl; [reflexivity | now rewrite IH]. Qed.

Lemma string_app_assoc (s t u : string) : (s ++ t) ++ u = s ++ (t ++ u).
Proof. induction s as [|c s IH]; simpl; [reflexivity | now rewrite IH]. Qed.

Lemma string_length_zero (s : string) : String.length s = 0%nat -> s = "".
Proof. destruct s; simpl; [reflexivity | discriminate]. Qed.

(** [startsWith] holds exactly when the string is the prefix followed by a
    remainder. *)
Lemma startsWith_remainder (s p : string) :
  JS.startsWith s p = true <-> exists rest, s = p ++ rest.
Proof.
  unfold JS.startsWith. revert s.
  induction p as [|c p IH]; intros s; simpl.
  - split; [intros _; now exists s | now destruct s].
  - destruct s as [|d s].
    + split; [discriminate | intros [rest H]; discriminate].
    + simpl. destruct (ascii_dec c d) as [Heq|Hne].
      * subst d. specialize (IH s). split.
        -- intros H. apply IH in H. destruct H as [rest H].
           exists rest. now rewrite H.
        -- intros [rest H]. apply IH. exists rest. now injection H.
      * split; [discriminate | intros [rest H]; injection H; congruence].
Qed.

(** The character just after a prefix is the first one of the remainder. *)
Lemma at_after_prefix (p rest : string) :
  JS.at_ (p ++ rest) (JS.length p) =
  match rest with String c _ => Some c | EmptyString => None end.
Proof.
  unfold JS.at_, JS.length.
  destruct (Z.ltb_spec (Z.of_nat (String.length p)) 0) as [H|_]; [lia|].
  rewrite Nat2Z.id.
  induction p as [|c p IH]; simpl; [now destruct rest | exact IH].
Qed.

Lemma ascii_eqb_true (a b : ascii) : Ascii.eqb a b = true <-> a = b.
Proof. apply Ascii.eqb_eq. Qed.

(** ** PathResolver *)

Section PathResolverFacts.

Context {P : PathApi}.

(** A root confines a normalized path exactly when the path is the
    normalized root followed by nothing or by something that starts with
    the separator. *)
Lemma confines_remainder (np root : string) :
  Scripts.confines np root = true <->
  exists rest, np = normalize root ++ rest /\
               (rest = "" \/ exists rest', rest = String sep rest').
Proof.
  unfold Scripts.confines. rewrite andb_true_iff, orb_true_iff, startsWith_remainder.
  split.
  - intros [[rest ->] H]. exists rest. split; [reflexivity|].
    rewrite at_after_prefix, js_length_app, Z.eqb_eq in H.
    destruct H as [H|H].
    + left. apply string_length_zero. unfold JS.length in H. lia.
    + right. destruct rest as [|c rest']; [discriminate|].
      apply ascii_eqb_true in H. subst c. now exists rest'.
  - intros [rest [-> H]]. split; [now exists rest|].
    rewrite at_after_prefix, js_length_app, Z.eqb_eq.
    destruct H as [->|[rest' ->]].
    + left. unfold JS.length. simpl. lia.
    + right. apply Ascii.eqb_refl.
Qed.

Lemma confines_startsWith (np root : string) :
  Scripts.confines np root = true ->
  JS.startsWith np (normalize root) = true.
Proof. unfold Scripts.confines. now intros [H _]%andb_true_iff. Qed.

(** C3. [isPathInScriptRoots] accepts a path exactly when the normalized
    path is some normalized root followed by a remainder that is empty or
    begins with the path separator; so a path whose remainder after the
    root begins with another character, a sibling sharing a string prefix,
    is not accepted by that root, as [/proj/Script2] is not by the root
    [/proj/Script]. *)
Theorem isPathInScriptRoots_remainder :
  (forall (p : string) (roots : list string),
     Scripts.isPathInScriptRoots p roots = true <->
     exists root rest,
       In root roots /\ normalize p = normalize root ++ rest /\
       (rest = "" \/ exists rest', rest = String sep rest')) /\
  (forall (p root : string) (c : ascii) (rest : string),
     normalize p = normalize root ++ String c rest -> c <> sep ->
     Scripts.isPathInScriptRoots p [root] = false) /\
  Scripts.isPathInScriptRoots (P := posix "/") "/proj/Script2" ["/proj/Script"]
    = false /\
  Scripts.isPathInScriptRoots (P := posix "/") "/a/Script2/x.as" ["/a/Script"]
    = false.
Proof.
  split; [|split; [|split; reflexivity]].
  - intros p roots. unfold Scripts.isPathInScriptRoots.
    rewrite existsb_exists. split.
    + intros [root [Hin H]]. apply confines_remainder in H.
      destruct H as [rest [H1 H2]]. now exists root, rest.
    + intros [root [rest [Hin [H1 H2]]]]. exists root. split; [assumption|].
      apply confines_remainder. now exists rest.
  - intros p root c rest Hn Hc.
    unfold Scripts.isPathInScriptRoots. simpl. rewrite orb_false_r.
    destruct (Scripts.confines (normalize p) root) eqn:E; [|reflexivity].
    apply confines_remainder in E. destruct E as [rest0 [H1 H2]].
    rewrite Hn in H1.
    assert (String c rest = rest0) as <-.
    { clear -H1. induction (normalize root) as [|d s IH]; simpl in H1.
      - assumption.
      - injection H1. exact IH. }
    destruct H2 as [H2|[rest' H2]]; [discriminate | injection H2; congruence].
Qed.

Variable existsSync : string -> bool.

Lemma resolveAgainst_first (filePath : string) (allRoots roots : list string)
    (r : Scripts.ResolvedPath) :
  Scripts.resolveAgainst existsSync filePath allRoots roots = Some r ->
  exists before after,
    roots = (before ++ Scripts.root r :: after)%list /\
    Scripts.absolutePath r = resolve (Scripts.root r) filePath /\
    Scripts.accepted existsSync allRoots (Scripts.absolutePath r) = true /\
    forall r', In r' before ->
      Scripts.accepted existsSync allRoots (resolve r' filePath) = false.
Proof.
  induction roots as [|root rest IH]; simpl; [discriminate|].
  fold (Scripts.accepted existsSync allRoots (resolve root filePath)).
  destruct (Scripts.accepted existsSync allRoots (resolve root filePath)) eqn:E.
  - intros [= <-]. exists [], rest. simpl. repeat split; try assumption.
    intros r' [].
  - intros H. destruct (IH H) as [before [after [H1 [H2 [H3 H4]]]]].
    exists (root :: before), after. subst rest. repeat split; try assumption.
    intros r' [<-|Hin]; [assumption | now apply H4].
Qed.

Lemma resolveAgainst_none (filePath : string) (allRoots roots : list string) :
  (forall root, In root roots ->
     Scripts.accepted existsSync allRoots (resolve root filePath) = false) ->
  Scripts.resolveAgainst existsSync filePath allRoots roots = None.
Proof.
  induction roots as [|root rest IH]; simpl; [reflexivity|].
  intros H.
  fold (Scripts.accepted existsSync allRoots (resolve root filePath)).
  rewrite (H root (or_introl eq_refl)). apply IH.
  intros r Hin. apply H. now right.
Qed.

(** C1, as the code has it.  When [resolveScriptPath] returns a pair, its
    root is an entry of the root set, and its path exists and is confined
    to the root set: it is, or lies under, some root.  For an absolute
    candidate the path is the candidate.  For a relative one it is the
    candidate resolved against the returned root, the first root in order
    whose resolution exists and is confined to the root set. *)
Theorem resolveScriptPath_confined (filePath : string) (roots : list string)
    (r : Scripts.ResolvedPath) :
  Scripts.resolveScriptPath existsSync filePath roots = Some r ->
  In (Scripts.root r) roots /\
  existsSync (Scripts.absolutePath r) = true /\
  Scripts.isPathInScriptRoots (Scripts.absolutePath r) roots = true /\
  (isAbsolute filePath = true -> Scripts.absolutePath r = filePath) /\
  (isAbsolute filePath = false ->
     Scripts.absolutePath r = resolve (Scripts.root r) filePath /\
     exists before after,
       roots = (before ++ Scripts.root r :: after)%list /\
       forall r', In r' before ->
         Scripts.accepted existsSync roots (resolve r' filePath) = false).
Proof.
  unfold Scripts.resolveScriptPath.
  destruct (isAbsolute filePath) eqn:Habs.
  - destruct (Scripts.isPathInScriptRoots filePath roots) eqn:Hin; simpl;
      [|discriminate].
    destruct (existsSync filePath) eqn:Hex; [|discriminate].
    destruct (find _ roots) as [root|] eqn:Hfind; [|discriminate].
    destruct (JS.falsy root); [discriminate|].
    intros [= <-]. simpl. apply find_some in Hfind.
    repeat split; try tauto; try assumption; intros; discriminate.
  - intros H. apply resolveAgainst_first in H.
    destruct H as [before [after [H1 [H2 [H3 H4]]]]].
    unfold Scripts.accepted in H3. apply andb_true_iff in H3.
    destruct H3 as [H3 H5].
    repeat split; try assumption.
    + rewrite H1. apply in_or_app. right. now left.
    + discriminate.
    + now exists before, after.
Qed.

(** C6. [resolveScriptPath] is a total function into an option: it returns
    [None], the source's [null], whenever no candidate both exists and is
    confined, whether the candidate is missing or lies outside every root;
    with no roots it always returns [None]. *)
Theorem resolveScriptPath_not_found :
  (forall (filePath : string) (roots : list string),
     (forall candidate, In candidate (Scripts.candidates filePath roots) ->
        existsSync candidate = false \/
        Scripts.isPathInScriptRoots candidate roots = false) ->
     Scripts.resolveScriptPath existsSync filePath roots = None) /\
  (forall filePath : string,
     Scripts.resolveScriptPath existsSync filePath [] = None).
Proof.
  assert (forall filePath roots,
            (forall candidate, In candidate (Scripts.candidates filePath roots) ->
               existsSync candidate = false \/
               Scripts.isPathInScriptRoots candidate roots = false) ->
            Scripts.resolveScriptPath existsSync filePath roots = None) as H.
  { intros filePath roots H.
    unfold Scripts.resolveScriptPath, Scripts.candidates in *.
    destruct (isAbsolute filePath).
    - destruct (H filePath (or_introl eq_refl)) as [E|E]; rewrite E;
        [now rewrite andb_false_r | reflexivity].
    - apply resolveAgainst_none. intros root Hin. unfold Scripts.accepted.
      destruct (H (resolve root filePath)) as [E|E].
      + apply in_map_iff. now exists root.
      + rewrite E. apply andb_false_r.
      + now rewrite E. }
  split; [exact H|].
  intros filePath. apply H. unfold Scripts.candidates.
  destruct (isAbsolute filePath); simpl.
  - intros candidate [<-|[]]. now right.
  - intros candidate [].
Qed.

End PathResolverFacts.

(** [/proj/Script2] is not inside [/proj/Script]. *)
Lemma isPathInScriptRoots_remainder_witness :
  Scripts.isPathInScriptRoots (P := posix "/") "/proj/Script2" ["/proj/Script"]
    = false.
Proof.
  apply (proj1 (proj2 (isPathInScriptRoots_remainder (P := posix "/")))
           "/proj/Script2" "/proj/Script" "2"%char "").
  - reflexivity.
  - discriminate.
Defined.


(** The resolver on [Fixtures.disk]: [f.as] is found under the second root. *)
Lemma resolveScriptPath_confined_witness :
  Scripts.resolveScriptPath (P := posix "/") (Fs.exists_ Fixtures.disk)
    "f.as" ["/a/x"; "/a/y"]
  = Some {| Scripts.absolutePath := "/a/y/f.as"; Scripts.root := "/a/y" |} /\
  Fs.exists_ Fixtures.disk "/a/y/f.as" = true /\
  Scripts.isPathInScriptRoots (P := posix "/") "/a/y/f.as" ["/a/x"; "/a/y"]
  = true.
Proof.
  assert (Scripts.resolveScriptPath (P := posix "/") (Fs.exists_ Fixtures.disk)
            "f.as" ["/a/x"; "/a/y"]
          = Some {| Scripts.absolutePath := "/a/y/f.as";
                    Scripts.root := "/a/y" |}) as H by reflexivity.
  split; [exact H|].
  pose proof (resolveScriptPath_confined (P := posix "/")
                (Fs.exists_ Fixtures.disk) _ _ _ H) as T.
  simpl Scripts.absolutePath in T. simpl Scripts.root in T.
  split; [exact (proj1 (proj2 T)) | exact (proj1 (proj2 (proj2 T)))].
Defined.

(** C1 fails as stated.  A relative candidate that leaves the root it is
    resolved against and lands in another root is accepted, and returned
    with the root it left; an absolute candidate inside [/proj/Script2] is
    returned with the root [/proj/Script], which does not confine it; and
    a root itself, a directory, is returned as a path inside that root. *)
Lemma resolveScriptPath_returned_root_counterexample :
  (Scripts.resolveScriptPath (P := posix "/") (Fs.exists_ Fixtures.disk)
     "../y/f.as" ["/a/x"; "/a/y"]
   = Some {| Scripts.absolutePath := "/a/y/f.as"; Scripts.root := "/a/x" |} /\
   Scripts.isPathInScriptRoots (P := posix "/") "/a/y/f.as" ["/a/x"] = false) /\
  (Scripts.resolveScriptPath (P := posix "/") (Fs.exists_ Fixtures.disk)
     "/proj/Script2/x.as" ["/proj/Script"; "/proj/Script2"]
   = Some {| Scripts.absolutePath := "/proj/Script2/x.as";
             Scripts.root := "/proj/Script" |} /\
   Scripts.isPathInScriptRoots (P := posix "/") "/proj/Script2/x.as"
     ["/proj/Script"] = false) /\
  (Scripts.resolveScriptPath (P := posix "/") (Fs.exists_ Fixtures.disk)
     "/a/x" ["/a/x"]
   = Some {| Scripts.absolutePath := "/a/x"; Scripts.root := "/a/x" |} /\
   option_map Fs.isFile (Fs.lookup Fixtures.disk "/a/x") = Some false).
Proof. repeat split; reflexivity. Qed.

(** The resolver on [Fixtures.disk]: a missing file and an existing file
    outside the roots are both not found. *)
Lemma resolveScriptPath_not_found_witness :
  Scripts.resolveScriptPath (P := posix "/") (Fs.exists_ Fixtures.disk)
    "/proj/Script/missing.as" ["/proj/Script"] = None /\
  Scripts.resolveScriptPath (P := posix "/") (Fs.exists_ Fixtures.disk)
    "/proj/Script2/x.as" ["/proj/Script"] = None.
Proof.
  split;
    apply (proj1 (resolveScriptPath_not_found (P := posix "/")
                    (Fs.exists_ Fixtures.disk)));
    intros candidate [<-|[]]; [left | right]; reflexivity.
Defined.

(** ** SearchEngine *)

Lemma range_shift (lo : Z) (a b : nat) :
  map (fun k => lo + Z.of_nat k) (seq a b) =
  map (fun k => (lo + Z.of_nat a) + Z.of_nat k) (seq 0 b).
Proof.
  revert lo a. induction b as [|b IH]; intros lo a; simpl; [reflexivity|].
  f_equal; [lia|].
  rewrite (IH lo (S a)), (IH (lo + Z.of_nat a) 1%nat).
  apply map_ext. intros k. lia.
Qed.

Lemma range_app (lo mid hi : Z) :
  lo <= mid <= hi ->
  Scripts.range lo hi = (Scripts.range lo mid ++ Scripts.range mid hi)%list.
Proof.
  intros H. unfold Scripts.range.
  replace (Z.to_nat (hi - lo)) with (Z.to_nat (mid - lo) + Z.to_nat (hi - mid))%nat
    by lia.
  rewrite seq_app, map_app. f_equal. simpl.
  rewrite range_shift. apply map_ext. intros k. lia.
Qed.

Lemma range_one (i : Z) : Scripts.range i (i + 1) = [i].
Proof.
  unfold Scripts.range. replace (i + 1 - i) with 1 by lia. simpl. f_equal. lia.
Qed.

Lemma range_In (lo hi k : Z) : In k (Scripts.range lo hi) <-> lo <= k < hi.
Proof.
  unfold Scripts.range. rewrite in_map_iff. split.
  - intros [n [<- Hn]]. apply in_seq in Hn. lia.
  - intros H. exists (Z.to_nat (k - lo)). split; [lia|]. apply in_seq. lia.
Qed.


(** The matches are the images of the indices of the matching lines. *)
Lemma searchLines_filter (lines : list string) (pattern : Scripts.RegExp)
    (contextLines : Z) :
  Scripts.searchLines lines pattern contextLines =
  map (Scripts.matchAt lines contextLines)
    (filter (fun i => pattern (Scripts.lineAt lines i))
       (Scripts.range 0 (Z.of_nat (List.length lines)))).
Proof.
  unfold Scripts.searchLines.
  induction (Scripts.range 0 (Z.of_nat (List.length lines))) as [|i l IH];
    simpl; [reflexivity|].
  destruct (pattern (Scripts.lineAt lines i)); simpl; now rewrite IH.
Qed.



Lemma searchInFile_value (fs : Fs.FileSystem) (file : FileScanner.ScriptFile)
    (pattern : Scripts.RegExp) (contextLines : Z) :
  Fs.value (Scripts.searchInFile fs file pattern contextLines) =
  match Fs.value (Fs.readFileSync fs (FileScanner.absolutePath file)) with
  | Some content =>
      Scripts.searchLines (JS.split (ascii_of_nat 10) content) pattern contextLines
  | None => []
  end.
Proof.
  unfold Scripts.searchInFile, Fs.readFileSync, Fs.value, Fs.bind, Fs.ret.
  simpl. now destruct (Fs.lookup fs _) as [[ | | | ]|].
Qed.








(** ** FileScanner *)

Section SortFacts.

Context {A : Type} (cmp : A -> A -> Z).

Lemma insertBy_perm (x : A) (l : list A) :
  Permutation (FileScanner.insertBy cmp x l) (x :: l).
Proof.
  induction l as [|y t IH]; simpl; [reflexivity|].
  destruct (cmp x y <=? 0); [reflexivity|].
  rewrite IH. apply perm_swap.
Qed.

Lemma sortBy_perm (l : list A) : Permutation (FileScanner.sortBy cmp l) l.
Proof.
  induction l as [|x l IH]; simpl; [reflexivity|].
  rewrite insertBy_perm. now apply perm_skip.
Qed.

Hypothesis total : forall a b, cmp a b <= 0 \/ cmp b a <= 0.
Hypothesis transitive : forall a b c, cmp a b <= 0 -> cmp b c <= 0 -> cmp a c <= 0.

Lemma insertBy_sorted (x : A) (l : list A) :
  StronglySorted (fun a b => cmp a b <= 0) l ->
  StronglySorted (fun a b => cmp a b <= 0) (FileScanner.insertBy cmp x l).
Proof.
  induction l as [|y t IH]; simpl; intros H.
  - constructor; [constructor | constructor].
  - inversion H as [|? ? Ht Hy]; subst.
    destruct (Z.leb_spec (cmp x y) 0) as [Hxy|Hxy].
    + constructor; [assumption|]. constructor; [assumption|].
      eapply Forall_impl; [|exact Hy]. intros z Hz. now apply transitive with y.
    + constructor; [now apply IH|].
      apply Forall_forall. intros z Hz.
      apply (Permutation_in _ (insertBy_perm x t)) in Hz.
      destruct Hz as [<-|Hz].
      * destruct (total x y); [lia | assumption].
      * rewrite Forall_forall in Hy. now apply Hy.
Qed.

Lemma sortBy_sorted (l : list A) :
  StronglySorted (fun a b => cmp a b <= 0) (FileScanner.sortBy cmp l).
Proof.
  induction l as [|x l IH]; simpl; [constructor | now apply insertBy_sorted].
Qed.

End SortFacts.

(** Two sorted arrangements of the same keys are the same list, when the
    order tells different keys apart. *)
Lemma sorted_keys_unique (le : string -> string -> Prop) (l1 l2 : list string) :
  (forall a b, le a b -> le b a -> a = b) ->
  StronglySorted le l1 -> StronglySorted le l2 -> Permutation l1 l2 -> l1 = l2.
Proof.
  intros antisym. revert l2.
  induction l1 as [|a l1 IH]; intros l2 H1 H2 Hp.
  - now apply Permutation_nil in Hp.
  - destruct l2 as [|b l2].
    + apply Permutation_sym, Permutation_nil in Hp. discriminate.
    + inversion H1 as [|? ? H1' Ha]; subst.
      inversion H2 as [|? ? H2' Hb]; subst.
      rewrite Forall_forall in Ha, Hb.
      assert (a = b) as ->.
      { assert (In b (a :: l1)) as Hb1
          by (apply (Permutation_in _ (Permutation_sym Hp)); now left).
        assert (In a (b :: l2)) as Ha2
          by (apply (Permutation_in _ Hp); now left).
        destruct Hb1 as [E|Hb1]; [assumption|].
        destruct Ha2 as [E|Ha2]; [now symmetry|].
        apply antisym; [now apply Ha | now apply Hb]. }
      f_equal. apply IH; try assumption.
      now apply Permutation_cons_inv in Hp.
Qed.

Lemma StronglySorted_map {A B} (f : A -> B) (R : B -> B -> Prop) (l : list A) :
  StronglySorted (fun a b => R (f a) (f b)) l -> StronglySorted R (map f l).
Proof.
  induction 1 as [|a l Hl IH Ha]; simpl; constructor; [assumption|].
  apply Forall_forall. intros y Hy. apply in_map_iff in Hy.
  destruct Hy as [x [<- Hx]]. rewrite Forall_forall in Ha. now apply Ha.
Qed.

Lemma codePointCompare_total (a b : string) :
  JS.codePointCompare a b <= 0 \/ JS.codePointCompare b a <= 0.
Proof.
  revert b. induction a as [|c a IH]; intros [|d b]; simpl; try lia.
  destruct (Z.ltb_spec (Z.of_nat (nat_of_ascii c)) (Z.of_nat (nat_of_ascii d)));
    destruct (Z.ltb_spec (Z.of_nat (nat_of_ascii d)) (Z.of_nat (nat_of_ascii c)));
    try lia.
  apply IH.
Qed.

Lemma codePointCompare_transitive (a b c : string) :
  JS.codePointCompare a b <= 0 -> JS.codePointCompare b c <= 0 ->
  JS.codePointCompare a c <= 0.
Proof.
  revert b c. induction a as [|x a IH]; intros [|y b] [|z c]; simpl; try lia.
  destruct (Z.ltb_spec (Z.of_nat (nat_of_ascii x)) (Z.of_nat (nat_of_ascii y)));
    destruct (Z.ltb_spec (Z.of_nat (nat_of_ascii y)) (Z.of_nat (nat_of_ascii x)));
    destruct (Z.ltb_spec (Z.of_nat (nat_of_ascii y)) (Z.of_nat (nat_of_ascii z)));
    destruct (Z.ltb_spec (Z.of_nat (nat_of_ascii z)) (Z.of_nat (nat_of_ascii y)));
    destruct (Z.ltb_spec (Z.of_nat (nat_of_ascii x)) (Z.of_nat (nat_of_ascii z)));
    destruct (Z.ltb_spec (Z.of_nat (nat_of_ascii z)) (Z.of_nat (nat_of_ascii x)));
    try lia.
  apply IH.
Qed.

Lemma value_bind {A B} (m : Fs.IO A) (k : A -> Fs.IO B) :
  Fs.value (Fs.bind m k) = Fs.value (k (Fs.value m)).
Proof.
  unfold Fs.value, Fs.bind. destruct m as [a t]. simpl.
  now destruct (k a).
Qed.

Lemma trace_bind {A B} (m : Fs.IO A) (k : A -> Fs.IO B) :
  Fs.trace (Fs.bind m k) = (Fs.trace m ++ Fs.trace (k (Fs.value m)))%list.
Proof.
  unfold Fs.value, Fs.trace, Fs.bind. destruct m as [a t]. simpl.
  now destruct (k a).
Qed.

Section ScannerFacts.

Context {P : PathApi} (localeCompare : string -> string -> Z).

Lemma scanForScripts_value (fs : Fs.FileSystem) (roots : list string) :
  Fs.value (FileScanner.scanForScripts localeCompare fs roots) =
  FileScanner.sortBy (FileScanner.byRelativePath localeCompare)
    (Fs.value (FileScanner.scanRoots fs roots [])).
Proof. unfold FileScanner.scanForScripts. now rewrite value_bind. Qed.

(** C2, as the code has it.  The scanner sorts with [localeCompare].
    Whenever that comparator is consistent (total and transitive), the
    sequence [scanForScripts] returns is sorted by [relativePath] under
    it and holds exactly the files collected from the roots; and when the
    comparator tells different paths apart, the order of the relative
    paths depends on which paths were collected only, not on the order of
    enumeration or of the roots. *)
Theorem scanForScripts_sorted :
  (forall a b, localeCompare a b <= 0 \/ localeCompare b a <= 0) ->
  (forall a b c,
     localeCompare a b <= 0 -> localeCompare b c <= 0 -> localeCompare a c <= 0) ->
  (forall (fs : Fs.FileSystem) (roots : list string),
     StronglySorted
       (fun a b =>
          localeCompare (FileScanner.relativePath a) (FileScanner.relativePath b)
          <= 0)
       (Fs.value (FileScanner.scanForScripts localeCompare fs roots)) /\
     Permutation
       (Fs.value (FileScanner.scanForScripts localeCompare fs roots))
       (Fs.value (FileScanner.scanRoots fs roots []))) /\
  (forall (fs fs' : Fs.FileSystem) (roots roots' : list string),
     (forall a b, localeCompare a b <= 0 -> localeCompare b a <= 0 -> a = b) ->
     Permutation
       (map FileScanner.relativePath (Fs.value (FileScanner.scanRoots fs roots [])))
       (map FileScanner.relativePath (Fs.value (FileScanner.scanRoots fs' roots' []))) ->
     map FileScanner.relativePath
       (Fs.value (FileScanner.scanForScripts localeCompare fs roots)) =
     map FileScanner.relativePath
       (Fs.value (FileScanner.scanForScripts localeCompare fs' roots'))).
Proof.
  intros total transitive.
  assert (forall fs roots,
            StronglySorted
              (fun a b =>
                 localeCompare (FileScanner.relativePath a)
                   (FileScanner.relativePath b) <= 0)
              (Fs.value (FileScanner.scanForScripts localeCompare fs roots)) /\
            Permutation
              (Fs.value (FileScanner.scanForScripts localeCompare fs roots))
              (Fs.value (FileScanner.scanRoots fs roots []))) as H.
  { intros fs roots. rewrite scanForScripts_value. split.
    - apply (sortBy_sorted (FileScanner.byRelativePath localeCompare)).
      + intros a b. apply total.
      + intros a b c. apply transitive.
    - apply sortBy_perm. }
  split; [exact H|].
  intros fs fs' roots roots' antisym Hp.
  destruct (H fs roots) as [S1 P1]. destruct (H fs' roots') as [S2 P2].
  apply (sorted_keys_unique (fun a b => localeCompare a b <= 0)).
  - exact antisym.
  - now apply (StronglySorted_map FileScanner.relativePath).
  - now apply (StronglySorted_map FileScanner.relativePath).
  - rewrite (Permutation_map FileScanner.relativePath P1).
    rewrite (Permutation_map FileScanner.relativePath P2). exact Hp.
Qed.

End ScannerFacts.

(** The scan of [Fixtures.twoScripts] under the code-point comparator. *)
Lemma scanForScripts_sorted_witness :
  StronglySorted
    (fun a b =>
       JS.codePointCompare (FileScanner.relativePath a)
         (FileScanner.relativePath b) <= 0)
    (Fs.value (FileScanner.scanForScripts (P := posix "/") JS.codePointCompare
                 Fixtures.twoScripts ["/proj/Script"])).
Proof.
  exact (proj1 (proj1 (scanForScripts_sorted (P := posix "/") JS.codePointCompare
                         codePointCompare_total codePointCompare_transitive)
                  Fixtures.twoScripts ["/proj/Script"])).
Defined.

(** C2 fails as stated.  Under the code-point comparator the root with
    [a.as] and [B.as] yields [B.as] first, not [a.as]; and under a
    comparator that orders letters alphabetically before it looks at
    their case, as the collation behind [localeCompare] does, the scanner
    returns [a.as] first, a sequence the code-point order does not sort. *)
Lemma scanForScripts_code_point_counterexample :
  map FileScanner.relativePath
    (Fs.value (FileScanner.scanForScripts (P := posix "/") JS.codePointCompare
                 Fixtures.twoScripts ["/proj/Script"]))
  = ["B.as"; "a.as"] /\
  map FileScanner.relativePath
    (Fs.value (FileScanner.scanForScripts (P := posix "/") Fixtures.alphabetical
                 Fixtures.twoScripts ["/proj/Script"]))
  = ["a.as"; "B.as"] /\
  JS.codePointCompare "a.as" "B.as" = 1.
Proof. repeat split; reflexivity. Qed.

(** ** The handler of [as_search_scripts] *)

Section HandlerFacts.

Context {P : PathApi} (localeCompare : string -> string -> Z).
Variable RegExp_new : string -> Scripts.RegExp + string.

Lemma getScriptRoots_nonempty (config : Config.Config) :
  Config.configured config = true ->
  (List.length (Config.getScriptRoots config) =? 0)%nat = false.
Proof.
  unfold Config.configured, Config.getScriptRoots.
  destruct (Config.projectPath config) as [p|]; [|discriminate].
  destruct (JS.falsy p); [discriminate|]. intros _.
  rewrite length_app, length_map. apply Nat.eqb_neq.
  destruct (Config.isEngineTree config); simpl; lia.
Qed.

(** C9, as the code has it.  When [new RegExp(pattern)] throws, the handler
    makes no call to the file system at all, neither to scan the roots nor
    to read a file; its reply is the invalid-pattern error when a project
    path is configured, and the project-not-configured error otherwise,
    because that guard comes first. *)
Theorem as_search_scripts_invalid_pattern (config : Config.Config)
    (fs : Fs.FileSystem) (pattern : string) (context_lines max_results : Z)
    (message : string) :
  RegExp_new pattern = inr message ->
  Fs.trace
    (Scripts.as_search_scripts localeCompare RegExp_new config fs pattern
       context_lines max_results) = [] /\
  Fs.value
    (Scripts.as_search_scripts localeCompare RegExp_new config fs pattern
       context_lines max_results)
  = if Config.configured config
    then Scripts.INVALID_PATTERN ++ message
    else Scripts.NOT_CONFIGURED.
Proof.
  intros Hbad. unfold Scripts.as_search_scripts.
  destruct (Config.configured config) eqn:Hc; simpl; [|split; reflexivity].
  rewrite (getScriptRoots_nonempty config Hc), Hbad. split; reflexivity.
Qed.

End HandlerFacts.

(** The pattern [(] on a configured project. *)
Lemma as_search_scripts_invalid_pattern_witness :
  Fs.trace
    (Scripts.as_search_scripts (P := posix "/") JS.codePointCompare
       Fixtures.compile Fixtures.project Fixtures.disk "(" 2 20) = [] /\
  Fs.value
    (Scripts.as_search_scripts (P := posix "/") JS.codePointCompare
       Fixtures.compile Fixtures.project Fixtures.disk "(" 2 20)
  = Scripts.INVALID_PATTERN
      ++ "Invalid regular expression: /(/: Unterminated group".
Proof.
  exact (as_search_scripts_invalid_pattern (P := posix "/") JS.codePointCompare
           Fixtures.compile Fixtures.project Fixtures.disk "(" 2 20
           "Invalid regular expression: /(/: Unterminated group" eq_refl).
Defined.

(** C9 fails as stated.  With no project path configured, the invalid
    pattern [(] is answered with the project-not-configured error, not
    with the invalid-pattern error. *)
Lemma as_search_scripts_not_configured_counterexample :
  Fixtures.compile "("
  = inr "Invalid regular expression: /(/: Unterminated group" /\
  Fs.value
    (Scripts.as_search_scripts (P := posix "/") JS.codePointCompare
       Fixtures.compile Fixtures.noProject Fixtures.disk "(" 2 20)
  = Scripts.NOT_CONFIGURED /\
  JS.startsWith Scripts.NOT_CONFIGURED Scripts.INVALID_PATTERN = false.
Proof. repeat split; reflexivity. Qed.

(** A valid pattern does reach the file system: the roots are scanned and
    the script found is read. *)
Lemma as_search_scripts_valid_pattern_trace :
  Fs.trace
    (Scripts.as_search_scripts (P := posix "/") JS.codePointCompare
       Fixtures.compile Fixtures.project Fixtures.disk "TODO" 1 20)
  = [Fs.StatSync "/proj/Script"; Fs.ReaddirSync "/proj/Script";
     Fs.StatSync "/proj/Script/A.as"; Fs.StatSync "/proj/Scripts";
     Fs.ReadFileSync "/proj/Script/A.as"].
Proof. reflexivity. Qed.

(** ** ProcessRunner *)

Import Commandlet.

(** The cases of a data handler: the buffer is below the ceiling and the
    chunk overruns it, or fits, or the buffer is full. *)
Ltac handler_cases :=
  unfold onStdoutData, onStderrData;
  match goal with
  | |- context [if ?size <? MAX_OUTPUT_SIZE then _ else _] =>
      destruct (size <? MAX_OUTPUT_SIZE);
      [ match goal with
        | |- context [if ?len >? ?remaining then _ else _] =>
            destruct (len >? remaining)
        end
      | ]
  end.

Lemma deliver_app (before after : list Event) :
  deliver (before ++ after) = fold_left step after (deliver before).
Proof. unfold deliver. apply fold_left_app. Qed.

(** Output events and the timer leave the calls of [resolve] as they are. *)
Lemma step_quiet_resolveCalls (r : Run) (e : Event) :
  terminal e = false -> resolveCalls (step r e) = resolveCalls r.
Proof.
  destruct e; simpl; try discriminate; intros _.
  - handler_cases; reflexivity.
  - handler_cases; reflexivity.
  - destruct (timerScheduled r); [|reflexivity].
    unfold onTimeout. now destruct (negb (finished r)).
Qed.

Lemma quiet_resolveCalls (events : list Event) (r : Run) :
  quiet events = true ->
  resolveCalls (fold_left step events r) = resolveCalls r.
Proof.
  revert r. induction events as [|e events IH]; intros r; simpl;
    [reflexivity|].
  intros [He Hq]%andb_true_iff. apply negb_true_iff in He.
  now rewrite IH, step_quiet_resolveCalls.
Qed.

(** Calls of [resolve] are never taken back, so the promise keeps the
    value of the first one. *)
Lemma step_settled (r : Run) (e : Event) (result : CommandletResult) :
  settled r = Some result -> settled (step r e) = Some result.
Proof.
  unfold settled. intros H.
  destruct (terminal e) eqn:T.
  - destruct e; try discriminate; simpl;
      destruct (resolveCalls r); try discriminate; exact H.
  - now rewrite step_quiet_resolveCalls.
Qed.

Lemma settled_stays (events : list Event) (r : Run) (result : CommandletResult) :
  settled r = Some result -> settled (fold_left step events r) = Some result.
Proof.
  revert r. induction events as [|e events IH]; intros r H; simpl;
    [assumption|].
  apply IH. now apply step_settled.
Qed.

(** A run that an event has ended has a result: the one of the first
    event that ended it. *)
Lemma runCommandlet_settles (events : list Event) :
  quiet events = false -> exists result, runCommandlet events = Some result.
Proof.
  unfold runCommandlet, deliver. generalize started as r.
  induction events as [|e events IH]; intros r; simpl; [discriminate|].
  destruct (terminal e) eqn:T; simpl.
  - intros _.
    assert (exists result, settled (step r e) = Some result) as [result H].
    { unfold settled. destruct e; try discriminate; simpl;
        destruct (resolveCalls r); simpl; eauto. }
    exists result. now apply settled_stays.
  - intros H. now apply IH.
Qed.

(** When the failure to start the process arrives as the [error] event,
    and that is the first event that ends the run, the promise is
    resolved with the exit code -1, [timedOut] false, the standard output
    captured so far, and the standard error captured so far followed by
    the description of the spawn error, whatever is delivered later. *)
Lemma error_event_result (before after : list Event) (message : string) :
  quiet before = true ->
  runCommandlet (before ++ Error message :: after) =
  Some {| exitCode := -1;
          stdout := var_stdout (deliver before);
          stderr := var_stderr (deliver before)
                    ++ JS.nl ++ "Spawn error: " ++ message;
          timedOut := false |}.
Proof.
  intros Hq. unfold runCommandlet. rewrite deliver_app. simpl.
  apply settled_stays. unfold settled, onError. simpl.
  unfold deliver. rewrite (quiet_resolveCalls before started Hq). reflexivity.
Qed.

(** C8. A failure to start the process that the child reports by its
    [error] event resolves the promise with the exit code -1, [timedOut]
    false and the description of the error after the standard error
    captured so far; a failure that [spawn] itself throws is not caught:
    the promise is rejected with what was thrown, and never resolved.  An
    empty path of the executable is such a failure, a missing executable
    is of the first kind. *)
Theorem spawn_throw_rejects :
  (forall (spawn : string -> list string -> Executor.Spawn)
          (editorPath projectPath commandlet : string) (args : list string)
          (before after : list Event) (message : string),
     spawn editorPath (Executor.cmdArgs projectPath commandlet args)
       = Executor.Child (before ++ Error message :: after) ->
     quiet before = true ->
     Executor.runCommandlet spawn editorPath projectPath commandlet args
     = Executor.Resolved
         {| exitCode := -1;
            stdout := var_stdout (deliver before);
            stderr := var_stderr (deliver before)
                      ++ JS.nl ++ "Spawn error: " ++ message;
            timedOut := false |}) /\
  (forall (spawn : string -> list string -> Executor.Spawn)
          (editorPath projectPath commandlet : string) (args : list string)
          (error : string),
     spawn editorPath (Executor.cmdArgs projectPath commandlet args)
       = Executor.Throws error ->
     Executor.runCommandlet spawn editorPath projectPath commandlet args
     = Executor.Rejected error /\
     forall result,
       Executor.runCommandlet spawn editorPath projectPath commandlet args
       <> Executor.Resolved result) /\
  Executor.runCommandlet Fixtures.spawnWithoutEditor
    "/no/such/editor" "/proj/Game.uproject" "AngelscriptTest" []
  = Executor.Resolved
      {| exitCode := -1;
         stdout := "";
         stderr := JS.nl ++ "Spawn error: spawn /no/such/editor ENOENT";
         timedOut := false |} /\
  Executor.runCommandlet Fixtures.spawnWithoutEditor
    "" "/proj/Game.uproject" "AngelscriptTest" []
  = Executor.Rejected "The argument 'file' cannot be empty. Received ''".
Proof.
  split; [|split; [|split; reflexivity]].
  - intros spawn editorPath projectPath commandlet args before after message
      Hspawn Hquiet.
    unfold Executor.runCommandlet. rewrite Hspawn.
    now rewrite (error_event_result before after message Hquiet).
  - intros spawn editorPath projectPath commandlet args error Hspawn.
    unfold Executor.runCommandlet. rewrite Hspawn.
    split; [reflexivity | discriminate].
Qed.

Lemma running_started : running started.
Proof.
  unfold running, started. simpl. repeat split; try lia; discriminate.
Qed.

Lemma running_step (r : Run) (e : Event) :
  terminal e = false -> running r -> running (step r e).
Proof.
  intros T [H1 [H2 [H3 [H4 H5]]]]. destruct e; try discriminate; simpl.
  - handler_cases; exact (conj H1 (conj H2 (conj H3 (conj H4 H5)))).
  - handler_cases; exact (conj H1 (conj H2 (conj H3 (conj H4 H5)))).
  - destruct (timerScheduled r) eqn:Ht.
    + unfold onTimeout. rewrite H2. unfold running. simpl.
      specialize (H5 eq_refl). rewrite H5.
      repeat split; try lia; try assumption; discriminate.
    + unfold running. rewrite Ht.
      exact (conj H1 (conj H2 (conj H3 (conj H4 H5)))).
Qed.

Lemma running_quiet (events : list Event) (r : Run) :
  quiet events = true -> running r -> running (fold_left step events r).
Proof.
  revert r. induction events as [|e events IH]; intros r; simpl;
    [tauto|].
  intros [He Hq]%andb_true_iff Hr. apply negb_true_iff in He.
  apply IH; [assumption | now apply running_step].
Qed.

(** After the run has ended the timer is cleared, so nothing kills. *)
Lemma ended_step (r : Run) (e : Event) :
  terminal e = false -> timerScheduled r = false ->
  timerScheduled (step r e) = false /\ kills (step r e) = kills r.
Proof.
  intros T Ht. destruct e; try discriminate; simpl.
  - handler_cases; simpl; tauto.
  - handler_cases; simpl; tauto.
  - rewrite Ht. tauto.
Qed.

Lemma ended_quiet (events : list Event) (r : Run) :
  quiet events = true -> timerScheduled r = false ->
  kills (fold_left step events r) = kills r.
Proof.
  revert r. induction events as [|e events IH]; intros r; simpl;
    [reflexivity|].
  intros [He Hq]%andb_true_iff Ht. apply negb_true_iff in He.
  destruct (ended_step r e He Ht) as [Ht' Hk].
  now rewrite IH, Hk.
Qed.

(** A sequence with one [close] and no [error] is quiet up to the [close]
    and quiet after it. *)
Lemma one_close_split (events : list Event) :
  closes events = 1%nat -> errors events = 0%nat ->
  exists before code after,
    events = (before ++ Close code :: after)%list /\
    quiet before = true /\ quiet after = true.
Proof.
  unfold closes, errors.
  induction events as [|e events IH]; simpl; [discriminate|].
  destruct e; simpl; intros Hc He; try discriminate.
  1-3: destruct (IH Hc He) as [before [code [after [-> [Hb Ha]]]]];
    eexists (_ :: before), code, after; simpl; rewrite Hb; now repeat split.
  exists [], code, events. repeat split.
  unfold quiet. apply forallb_forall. intros x Hx.
  destruct x; simpl; try reflexivity; exfalso.
  - assert (In (Close code0) (filter isClose events)) as Hin
      by (apply filter_In; now split).
    destruct (filter isClose events); [destruct Hin | discriminate].
  - assert (In (Error message) (filter isError events)) as Hin
      by (apply filter_In; now split).
    destruct (filter isError events); [destruct Hin | discriminate].
Qed.

(** C5. Whatever the order in which the exit of the process, the firing
    of the timer and the output arrive, a run whose process exits once
    calls [resolve] exactly once, so the promise has exactly one result;
    the process is killed at most once, and it was killed exactly when the
    result says [timedOut]: a run is never both killed and reported as
    completed in time. *)
Theorem exit_timeout_race (events : list Event) :
  closes events = 1%nat -> errors events = 0%nat ->
  exists result,
    resolveCalls (deliver events) = [result] /\
    runCommandlet events = Some result /\
    (kills (deliver events) <= 1)%nat /\
    (timedOut result = true <-> kills (deliver events) = 1%nat) /\
    (timedOut result = false <-> kills (deliver events) = 0%nat).
Proof.
  intros Hc He.
  destruct (one_close_split events Hc He) as [before [code [after [-> [Hb Ha]]]]].
  unfold runCommandlet. rewrite deliver_app. simpl.
  pose proof (running_quiet before started Hb running_started) as R.
  fold (deliver before) in R. destruct R as [R1 [R2 [R3 [R4 R5]]]].
  set (r := deliver before) in *.
  assert (timerScheduled (onClose r code) = false) as Ht by reflexivity.
  exists {| exitCode := match code with Some c => c | None => -1 end;
            stdout := var_stdout r;
            stderr := var_stderr r;
            timedOut := var_timedOut r |}.
  rewrite (ended_quiet after _ Ha Ht). unfold settled.
  rewrite (quiet_resolveCalls after _ Ha). simpl. rewrite R1. simpl.
  repeat split; try assumption; try apply R4.
  - intros H. destruct (var_timedOut r) eqn:E; [discriminate|].
    destruct (Nat.eq_dec (kills r) 1) as [K|K]; [|lia].
    apply R4 in K. discriminate.
  - intros H. destruct (var_timedOut r) eqn:E; [|reflexivity].
    assert (kills r = 1%nat) by now apply R4. lia.
Qed.

(** The two orders of the timer and the exit, with output in between. *)
Lemma exit_timeout_race_witness :
  (exists result,
     runCommandlet [StdoutData "ok"; TimerFired; Close None] = Some result /\
     (timedOut result = true <->
      kills (deliver [StdoutData "ok"; TimerFired; Close None]) = 1%nat)) /\
  (exists result,
     runCommandlet [StdoutData "ok"; Close (Some 0); TimerFired] = Some result /\
     (timedOut result = false <->
      kills (deliver [StdoutData "ok"; Close (Some 0); TimerFired]) = 0%nat)).
Proof.
  split.
  - destruct (exit_timeout_race [StdoutData "ok"; TimerFired; Close None]
                eq_refl eq_refl) as [result [_ [H1 [_ [H2 _]]]]].
    now exists result.
  - destruct (exit_timeout_race [StdoutData "ok"; Close (Some 0); TimerFired]
                eq_refl eq_refl) as [result [_ [H1 [_ [_ H2]]]]].
    now exists result.
Defined.

(** The two orders, run: the timer first gives a timed-out result and one
    kill; the exit first gives a completed result and no kill. *)
Lemma exit_timeout_orders :
  runCommandlet [TimerFired; Close None] =
    Some {| exitCode := -1; stdout := ""; stderr := ""; timedOut := true |} /\
  kills (deliver [TimerFired; Close None]) = 1%nat /\
  runCommandlet [Close (Some 0); TimerFired] =
    Some {| exitCode := 0; stdout := ""; stderr := ""; timedOut := false |} /\
  kills (deliver [Close (Some 0); TimerFired]) = 0%nat.
Proof. repeat split; reflexivity. Qed.

(** *** Output capture *)

Lemma substring0_length (s : string) (n : Z) :
  0 <= n <= JS.length s -> JS.length (JS.substring0 s n) = n.
Proof.
  unfold JS.substring0, JS.length. intros H.
  assert (forall (k : nat) (t : string),
            (k <= String.length t)%nat ->
            String.length (String.substring 0 k t) = k) as L.
  { intros k t. revert k. induction t as [|c t IH]; intros [|k]; simpl;
      try reflexivity; try lia.
    intros Hk. rewrite IH; lia. }
  rewrite L; lia.
Qed.

(** A chunk that fits is appended whole, and no marker with it. *)
Lemma onStdoutData_fits (r : Run) (chunk : string) :
  JS.length (var_stdout r) < MAX_OUTPUT_SIZE ->
  JS.length (var_stdout r) + JS.length chunk <= MAX_OUTPUT_SIZE ->
  var_stdout (onStdoutData r chunk) = var_stdout r ++ chunk /\
  stdoutTruncated (onStdoutData r chunk) = stdoutTruncated r.
Proof.
  intros H1 H2. unfold onStdoutData.
  destruct (Z.ltb_spec (JS.length (var_stdout r)) MAX_OUTPUT_SIZE); [|lia].
  destruct (Z.gtb_spec (JS.length chunk)
              (MAX_OUTPUT_SIZE - JS.length (var_stdout r))); [lia|].
  split; reflexivity.
Qed.

(** Once the buffer holds the ceiling or more, data is dropped, and
    nothing else happens. *)
Lemma onStdoutData_full (r : Run) (chunk : string) :
  MAX_OUTPUT_SIZE <= JS.length (var_stdout r) -> onStdoutData r chunk = r.
Proof.
  intros H. unfold onStdoutData.
  destruct (Z.ltb_spec (JS.length (var_stdout r)) MAX_OUTPUT_SIZE);
    [lia | reflexivity].
Qed.

(** The buffer of [stdout] never exceeds the ceiling plus the marker, and
    holds exactly that much once the marker has been appended. *)
Lemma stdout_bounded (events : list Event) :
  JS.length (var_stdout (deliver events))
    <= MAX_OUTPUT_SIZE + JS.length STDOUT_MARKER /\
  (stdoutTruncated (deliver events) = true ->
   JS.length (var_stdout (deliver events))
     = MAX_OUTPUT_SIZE + JS.length STDOUT_MARKER).
Proof.
  assert (0 <= JS.length STDOUT_MARKER) as M by apply js_length_nonneg.
  set (bounded := fun r : Run =>
         (JS.length (var_stdout r) <= MAX_OUTPUT_SIZE /\
          stdoutTruncated r = false) \/
         JS.length (var_stdout r) = MAX_OUTPUT_SIZE + JS.length STDOUT_MARKER).
  assert (forall r e, bounded r -> bounded (step r e)) as S.
  { intros r e B. destruct e; simpl; try exact B.
    - unfold onStdoutData.
      destruct (Z.ltb_spec (JS.length (var_stdout r)) MAX_OUTPUT_SIZE) as [L|L];
        [|exact B].
      destruct (Z.gtb_spec (JS.length chunk)
                  (MAX_OUTPUT_SIZE - JS.length (var_stdout r))) as [G|G].
      + right. cbn [var_stdout]. rewrite !js_length_app, substring0_length; lia.
      + left. cbn [var_stdout stdoutTruncated]. rewrite js_length_app.
        destruct B as [[_ B]|B]; [split; [lia | exact B] | lia].
    - handler_cases; exact B.
    - destruct (timerScheduled r); [|exact B].
      unfold onTimeout. destruct (negb (finished r)); exact B. }
  assert (forall evs r, bounded r -> bounded (fold_left step evs r)) as F.
  { induction evs as [|e evs IH]; intros r B; simpl; [exact B|].
    apply IH, S, B. }
  assert (bounded (deliver events)) as B.
  { apply F. left. split; [|reflexivity].
    unfold started, JS.length, MAX_OUTPUT_SIZE. simpl. lia. }
  destruct B as [[B1 B2]|B]; split; try lia;
    try (rewrite B2; discriminate); try (intros _; exact B).
Qed.

(** Data on [stderr] leaves the buffer of [stdout] as it is. *)
Lemma stderr_leaves_stdout (r : Run) (chunk : string) :
  var_stdout (onStderrData r chunk) = var_stdout r /\
  stdoutTruncated (onStderrData r chunk) = stdoutTruncated r.
Proof.
  handler_cases; split; reflexivity.
Qed.

Lemma doubled_length (n : nat) (s : string) :
  JS.length (doubled n s) = 2 ^ Z.of_nat n * JS.length s.
Proof.
  revert s. induction n as [|n IH]; intros s.
  - simpl doubled. rewrite Z.pow_0_r. lia.
  - simpl doubled. rewrite IH, js_length_app, Nat2Z.inj_succ, Z.pow_succ_r; lia.
Qed.

Lemma mebibyte_length : JS.length mebibyte = MAX_OUTPUT_SIZE.
Proof. unfold mebibyte. rewrite doubled_length. reflexivity. Qed.

(** C4, where the code departs from it.  When the chunks fill the buffer
    of [stdout] to the ceiling exactly, the buffer has reached the
    ceiling and every later chunk is dropped, yet no marker is appended
    and [stdoutTruncated] stays false.  So a process that writes two
    mebibytes in two chunks of one mebibyte leaves a buffer of one
    mebibyte with no marker in it. *)
Theorem stdout_exact_fill_unmarked :
  (forall (r : Run) (chunk : string) (later : list string),
     JS.length (var_stdout r) < MAX_OUTPUT_SIZE ->
     JS.length (var_stdout r) + JS.length chunk = MAX_OUTPUT_SIZE ->
     var_stdout (fold_left step (map StdoutData (chunk :: later)) r)
       = var_stdout r ++ chunk /\
     stdoutTruncated (fold_left step (map StdoutData (chunk :: later)) r)
       = stdoutTruncated r) /\
  var_stdout (deliver [StdoutData mebibyte; StdoutData mebibyte]) = mebibyte /\
  stdoutTruncated (deliver [StdoutData mebibyte; StdoutData mebibyte]) = false /\
  JS.length mebibyte = MAX_OUTPUT_SIZE.
Proof.
  assert (forall (r : Run) (chunk : string) (later : list string),
            JS.length (var_stdout r) < MAX_OUTPUT_SIZE ->
            JS.length (var_stdout r) + JS.length chunk = MAX_OUTPUT_SIZE ->
            var_stdout (fold_left step (map StdoutData (chunk :: later)) r)
              = var_stdout r ++ chunk /\
            stdoutTruncated (fold_left step (map StdoutData (chunk :: later)) r)
              = stdoutTruncated r) as G.
  { intros r chunk later H1 H2. cbn [map fold_left step].
    destruct (onStdoutData_fits r chunk H1) as [E1 E2]; [lia|].
    assert (MAX_OUTPUT_SIZE <= JS.length (var_stdout (onStdoutData r chunk))) as Full
      by (rewrite E1, js_length_app; lia).
    revert Full E1 E2. generalize (onStdoutData r chunk) as r'.
    induction later as [|c later IH]; intros r' Full E1 E2; cbn [map fold_left step].
    - now split.
    - rewrite (onStdoutData_full r' c Full). now apply IH. }
  split; [exact G|].
  assert (forall c : string,
            JS.length c = MAX_OUTPUT_SIZE ->
            var_stdout (deliver [StdoutData c; StdoutData c]) = c /\
            stdoutTruncated (deliver [StdoutData c; StdoutData c]) = false /\
            JS.length c = MAX_OUTPUT_SIZE) as H.
  { intros c L. destruct (G started c [c]) as [E1 E2].
    - unfold started, JS.length, MAX_OUTPUT_SIZE. simpl. lia.
    - rewrite L. unfold started, JS.length. simpl. lia.
    - repeat split; assumption. }
  exact (H mebibyte mebibyte_length).
Qed.

(* ===================================================================== *)
(** * Further properties of the code *)
(* ===================================================================== *)

(** ** [runCommandlet]: what the buffers hold *)

Lemma substring_zero_app_long (a b : string) (k : nat) :
  (String.length a <= k)%nat ->
  String.substring 0 k (a ++ b) = a ++ String.substring 0 (k - String.length a) b.
Proof.
  revert k. induction a as [|c a IH]; intros k H; simpl in *.
  - now rewrite Nat.sub_0_r.
  - destruct k as [|k]; [lia|]. simpl. rewrite IH by lia. reflexivity.
Qed.

Lemma substring_zero_app_short (a b : string) (k : nat) :
  (k <= String.length a)%nat ->
  String.substring 0 k (a ++ b) = String.substring 0 k a.
Proof.
  revert k. induction a as [|c a IH]; intros k H; simpl in *.
  - assert (k = 0%nat) as -> by lia. now destruct b.
  - destruct k as [|k]; [reflexivity|]. simpl. rewrite IH by lia. reflexivity.
Qed.

Lemma substring_zero_all (s : string) (k : nat) :
  (String.length s <= k)%nat -> String.substring 0 k s = s.
Proof.
  revert k. induction s as [|c s IH]; intros k H; simpl in *.
  - now destruct k.
  - destruct k as [|k]; [lia|]. simpl. rewrite IH by lia. reflexivity.
Qed.

Lemma substring0_app_long (a b : string) (n : Z) :
  JS.length a <= n ->
  JS.substring0 (a ++ b) n = a ++ JS.substring0 b (n - JS.length a).
Proof.
  unfold JS.substring0, JS.length. intros H.
  rewrite substring_zero_app_long by lia. do 2 f_equal. lia.
Qed.

Lemma substring0_app_short (a b : string) (n : Z) :
  n <= JS.length a -> JS.substring0 (a ++ b) n = JS.substring0 a n.
Proof.
  unfold JS.substring0, JS.length. intros H.
  apply substring_zero_app_short. lia.
Qed.

Lemma substring0_all (s : string) (n : Z) :
  JS.length s <= n -> JS.substring0 s n = s.
Proof.
  unfold JS.substring0, JS.length. intros H. apply substring_zero_all. lia.
Qed.

Lemma substring0_short_length (s : string) (n : Z) :
  0 <= n -> n <= JS.length s -> JS.length (JS.substring0 s n) = n.
Proof. intros H1 H2. now apply substring0_length. Qed.

Lemma stdoutData_app (xs ys : list Event) :
  Streams.stdoutData (xs ++ ys) = Streams.stdoutData xs ++ Streams.stdoutData ys.
Proof.
  induction xs as [|e xs IH]; simpl; [reflexivity|].
  destruct e; try exact IH. now rewrite IH, string_app_assoc.
Qed.

Lemma stderrData_app (xs ys : list Event) :
  Streams.stderrData (xs ++ ys) = Streams.stderrData xs ++ Streams.stderrData ys.
Proof.
  induction xs as [|e xs IH]; simpl; [reflexivity|].
  destruct e; try exact IH. now rewrite IH, string_app_assoc.
Qed.

Lemma MAX_OUTPUT_SIZE_pos : 0 < MAX_OUTPUT_SIZE.
Proof. reflexivity. Qed.

(** Below the ceiling the buffer is all the data, and untruncated. *)
Lemma holds_below (b : string) (t : bool) (m d : string) :
  Streams.holds b t m d -> JS.length b < MAX_OUTPUT_SIZE ->
  t = false /\ b = d.
Proof.
  intros [Hb Ht] Hlen. pose proof MAX_OUTPUT_SIZE_pos as Hpos.
  pose proof (js_length_nonneg m) as Hm.
  destruct t.
  - exfalso. specialize (Ht eq_refl). rewrite Hb, js_length_app in Hlen.
    rewrite substring0_short_length in Hlen; lia.
  - split; [reflexivity|]. rewrite string_app_nil_r in Hb.
    destruct (Z_le_gt_dec (JS.length d) MAX_OUTPUT_SIZE) as [Hd|Hd].
    + now rewrite substring0_all in Hb.
    + exfalso. rewrite Hb, substring0_short_length in Hlen; lia.
Qed.

(** At or above the ceiling the data has reached the ceiling. *)
Lemma holds_above (b : string) (t : bool) (m d : string) :
  Streams.holds b t m d -> MAX_OUTPUT_SIZE <= JS.length b ->
  MAX_OUTPUT_SIZE <= JS.length d.
Proof.
  intros [Hb Ht] Hlen. destruct t; [specialize (Ht eq_refl); lia|].
  rewrite string_app_nil_r in Hb.
  destruct (Z_le_gt_dec MAX_OUTPUT_SIZE (JS.length d)) as [Hd|Hd]; [assumption|].
  rewrite Hb, substring0_all in Hlen; lia.
Qed.

Lemma holds_overrun (b : string) (t : bool) (m d chunk : string) :
  Streams.holds b t m d -> JS.length b < MAX_OUTPUT_SIZE ->
  JS.length chunk > MAX_OUTPUT_SIZE - JS.length b ->
  Streams.holds ((b ++ JS.substring0 chunk (MAX_OUTPUT_SIZE - JS.length b)) ++ m)
    true m (d ++ chunk).
Proof.
  intros H Hlen Hover. destruct (holds_below _ _ _ _ H Hlen) as [-> ->].
  split.
  - rewrite substring0_app_long by lia. reflexivity.
  - intros _. rewrite js_length_app. lia.
Qed.

Lemma holds_fits (b : string) (t : bool) (m d chunk : string) :
  Streams.holds b t m d -> JS.length b < MAX_OUTPUT_SIZE ->
  JS.length chunk <= MAX_OUTPUT_SIZE - JS.length b ->
  Streams.holds (b ++ chunk) t m (d ++ chunk).
Proof.
  intros H Hlen Hfit. destruct (holds_below _ _ _ _ H Hlen) as [-> ->].
  split; [|discriminate].
  rewrite substring0_all by (rewrite js_length_app; lia).
  now rewrite string_app_nil_r.
Qed.

Lemma holds_full (b : string) (t : bool) (m d chunk : string) :
  Streams.holds b t m d -> MAX_OUTPUT_SIZE <= JS.length b ->
  Streams.holds b t m (d ++ chunk).
Proof.
  intros H Hlen. pose proof (holds_above _ _ _ _ H Hlen) as Hd.
  destruct H as [Hb Ht]. pose proof (js_length_nonneg chunk). split.
  - now rewrite substring0_app_short.
  - intros E. rewrite js_length_app. specialize (Ht E). lia.
Qed.

Lemma holds_same (b : string) (t : bool) (m d : string) :
  Streams.holds b t m d -> Streams.holds b t m (d ++ "").
Proof. now rewrite string_app_nil_r. Qed.

Lemma stdout_leaves_stderr (r : Run) (chunk : string) :
  var_stderr (onStdoutData r chunk) = var_stderr r /\
  stderrTruncated (onStdoutData r chunk) = stderrTruncated r.
Proof. handler_cases; split; reflexivity. Qed.

(** Both buffers keep their shape through every event. *)
Lemma step_holds (r : Run) (e : Event) (out err : string) :
  Streams.holds (var_stdout r) (stdoutTruncated r) STDOUT_MARKER out ->
  Streams.holds (var_stderr r) (stderrTruncated r) STDERR_MARKER err ->
  Streams.holds (var_stdout (step r e)) (stdoutTruncated (step r e))
    STDOUT_MARKER (out ++ Streams.stdoutData [e]) /\
  Streams.holds (var_stderr (step r e)) (stderrTruncated (step r e))
    STDERR_MARKER (err ++ Streams.stderrData [e]).
Proof.
  intros Ho He.
  destruct e; cbn [step Streams.stdoutData Streams.stderrData].
  - destruct (stdout_leaves_stderr r chunk) as [-> ->].
    split; [|now apply holds_same].
    rewrite (string_app_nil_r chunk). unfold onStdoutData.
    destruct (Z.ltb_spec (JS.length (var_stdout r)) MAX_OUTPUT_SIZE) as [L|L].
    + destruct (Z.gtb_spec (JS.length chunk)
                  (MAX_OUTPUT_SIZE - JS.length (var_stdout r))) as [G|G];
        cbn [var_stdout stdoutTruncated].
      * apply holds_overrun with (t := stdoutTruncated r); [assumption|lia|lia].
      * now apply holds_fits.
    + now apply holds_full.
  - destruct (stderr_leaves_stdout r chunk) as [-> ->].
    split; [now apply holds_same|].
    rewrite (string_app_nil_r chunk). unfold onStderrData.
    destruct (Z.ltb_spec (JS.length (var_stderr r)) MAX_OUTPUT_SIZE) as [L|L].
    + destruct (Z.gtb_spec (JS.length chunk)
                  (MAX_OUTPUT_SIZE - JS.length (var_stderr r))) as [G|G];
        cbn [var_stderr stderrTruncated].
      * apply holds_overrun with (t := stderrTruncated r); [assumption|lia|lia].
      * now apply holds_fits.
    + now apply holds_full.
  - destruct (timerScheduled r); [unfold onTimeout; destruct (negb (finished r))|];
      cbn [var_stdout var_stderr stdoutTruncated stderrTruncated];
      split; now apply holds_same.
  - cbn [onClose var_stdout var_stderr stdoutTruncated stderrTruncated].
    split; now apply holds_same.
  - cbn [onError var_stdout var_stderr stdoutTruncated stderrTruncated].
    split; now apply holds_same.
Qed.

Lemma deliver_holds (events : list Event) :
  Streams.holds (var_stdout (deliver events)) (stdoutTruncated (deliver events))
    STDOUT_MARKER (Streams.stdoutData events) /\
  Streams.holds (var_stderr (deliver events)) (stderrTruncated (deliver events))
    STDERR_MARKER (Streams.stderrData events).
Proof.
  induction events as [|e events IH] using rev_ind.
  - split; split; try discriminate; reflexivity.
  - rewrite deliver_app, stdoutData_app, stderrData_app.
    destruct IH as [Ho He]. cbn [fold_left]. now apply step_holds.
Qed.

(** X1. Whatever events arrive, the buffer of each stream is the first
    [MAX_OUTPUT_SIZE] characters of what the process wrote to that stream,
    followed by the marker of the stream exactly when the flag of the
    stream is set, and the flag is set only when the process wrote more
    than the ceiling; a stream that stays within the ceiling is captured
    whole.  Data of the other stream, the timer and the end of the run
    change nothing of it. *)
Theorem capture_is_stream_prefix (events : list Event) :
  var_stdout (deliver events) =
    JS.substring0 (Streams.stdoutData events) MAX_OUTPUT_SIZE
    ++ (if stdoutTruncated (deliver events) then STDOUT_MARKER else "") /\
  var_stderr (deliver events) =
    JS.substring0 (Streams.stderrData events) MAX_OUTPUT_SIZE
    ++ (if stderrTruncated (deliver events) then STDERR_MARKER else "") /\
  (stdoutTruncated (deliver events) = true ->
   MAX_OUTPUT_SIZE < JS.length (Streams.stdoutData events)) /\
  (stderrTruncated (deliver events) = true ->
   MAX_OUTPUT_SIZE < JS.length (Streams.stderrData events)) /\
  (JS.length (Streams.stdoutData events) <= MAX_OUTPUT_SIZE ->
   var_stdout (deliver events) = Streams.stdoutData events) /\
  (JS.length (Streams.stderrData events) <= MAX_OUTPUT_SIZE ->
   var_stderr (deliver events) = Streams.stderrData events).
Proof.
  destruct (deliver_holds events) as [[Ho To] [He Te]].
  repeat split; try assumption.
  - intros H. rewrite Ho. destruct (stdoutTruncated (deliver events)).
    + specialize (To eq_refl). lia.
    + now rewrite string_app_nil_r, substring0_all.
  - intros H. rewrite He. destruct (stderrTruncated (deliver events)).
    + specialize (Te eq_refl). lia.
    + now rewrite string_app_nil_r, substring0_all.
Qed.

(** ** [runCommandlet]: the result *)

Lemma first_terminal_split (events : list Event) :
  quiet events = false ->
  exists before e after,
    events = (before ++ e :: after)%list /\
    quiet before = true /\ terminal e = true.
Proof.
  induction events as [|e events IH]; simpl; [discriminate|].
  destruct (terminal e) eqn:T; simpl.
  - intros _. now exists [], e, events.
  - intros H. destruct (IH H) as [before [e' [after [-> [Hq Ht]]]]].
    exists (e :: before), e', after. simpl. rewrite T. now repeat split.
Qed.

(** The promise takes the value of the first event that ends the run. *)
Lemma first_terminal_result (before after : list Event) (e : Event) :
  quiet before = true -> terminal e = true ->
  runCommandlet (before ++ e :: after) = Streams.resultOf (deliver before) e.
Proof.
  intros Hq Ht. unfold runCommandlet. rewrite deliver_app. cbn [fold_left].
  assert (settled (step (deliver before) e) = Streams.resultOf (deliver before) e)
    as H.
  { unfold settled, deliver.
    destruct e; try discriminate; cbn [step onClose onError resolveCalls];
      rewrite (quiet_resolveCalls before started Hq); reflexivity. }
  destruct (Streams.resultOf (deliver before) e) as [result|] eqn:R.
  - now apply settled_stays.
  - destruct e; discriminate.
Qed.

Lemma substring0_length_le (s : string) (n : Z) :
  0 <= n -> JS.length (JS.substring0 s n) <= n.
Proof.
  intros H. destruct (Z_le_gt_dec n (JS.length s)).
  - rewrite substring0_length; lia.
  - rewrite substring0_all; lia.
Qed.

Lemma holds_bounded (b : string) (t : bool) (m d : string) :
  Streams.holds b t m d -> JS.length b <= MAX_OUTPUT_SIZE + JS.length m.
Proof.
  intros [-> _]. rewrite js_length_app.
  pose proof MAX_OUTPUT_SIZE_pos as Hpos. pose proof (js_length_nonneg m) as Hm.
  assert (JS.length (JS.substring0 d MAX_OUTPUT_SIZE) <= MAX_OUTPUT_SIZE) as Hs
    by (apply substring0_length_le; lia).
  destruct t; [lia|]. change (JS.length "") with 0. lia.
Qed.

(** X2. The result of a run never carries more of [stdout] than the
    ceiling and the marker; the same holds of [stderr] in the result of a
    run that no [error] event ended. *)
Theorem result_output_bounded (events : list Event) (result : CommandletResult) :
  runCommandlet events = Some result ->
  JS.length (stdout result) <= MAX_OUTPUT_SIZE + JS.length STDOUT_MARKER /\
  (errors events = 0%nat ->
   JS.length (stderr result) <= MAX_OUTPUT_SIZE + JS.length STDERR_MARKER).
Proof.
  intros H.
  assert (quiet events = false) as Hq.
  { destruct (quiet events) eqn:Q; [|reflexivity].
    unfold runCommandlet, settled, deliver in H.
    rewrite (quiet_resolveCalls events started Q) in H. discriminate. }
  destruct (first_terminal_split events Hq) as [before [e [after [-> [Hb Ht]]]]].
  rewrite (first_terminal_result before after e Hb Ht) in H.
  destruct (deliver_holds before) as [Ho He].
  apply holds_bounded in Ho. apply holds_bounded in He.
  destruct e; try discriminate; injection H as <-; cbn [stdout stderr].
  - split; [assumption | intros _; assumption].
  - split; [assumption|]. unfold errors. rewrite filter_app, length_app.
    simpl. lia.
Qed.

(** A process that writes three chunks of a mebibyte and exits. *)
Lemma result_output_bounded_witness :
  exists result,
    runCommandlet [StdoutData mebibyte; StdoutData mebibyte; StdoutData mebibyte;
                   Close (Some 0)] = Some result /\
    JS.length (stdout result) <= MAX_OUTPUT_SIZE + JS.length STDOUT_MARKER.
Proof.
  destruct (runCommandlet_settles
              [StdoutData mebibyte; StdoutData mebibyte; StdoutData mebibyte;
               Close (Some 0)] eq_refl) as [result H].
  exists result. split; [exact H|].
  exact (proj1 (result_output_bounded _ result H)).
Defined.

(** While no event has ended the run, [timedOut] is set exactly when the
    timer has fired, which also spends the timer. *)
Lemma quiet_timer (events : list Event) (r : Run) :
  quiet events = true -> finished r = false ->
  finished (fold_left step events r) = false /\
  var_timedOut (fold_left step events r) =
    var_timedOut r || (timerScheduled r && Streams.timerFired events) /\
  timerScheduled (fold_left step events r) =
    timerScheduled r && negb (Streams.timerFired events).
Proof.
  revert r. induction events as [|e events IH]; intros r Hq Hf.
  - cbn. now rewrite andb_false_r, orb_false_r, andb_true_r.
  - cbn [quiet forallb] in Hq. apply andb_true_iff in Hq. destruct Hq as [He Hq].
    apply negb_true_iff in He. cbn [fold_left]. unfold Streams.timerFired.
    cbn [existsb]. fold (Streams.timerFired events).
    destruct e; try discriminate; cbn [step Streams.isTimer].
    + assert (finished (onStdoutData r chunk) = finished r /\
              var_timedOut (onStdoutData r chunk) = var_timedOut r /\
              timerScheduled (onStdoutData r chunk) = timerScheduled r)
        as [E1 [E2 E3]] by (handler_cases; repeat split; reflexivity).
      rewrite <- E1 in Hf. destruct (IH _ Hq Hf) as [H1 [H2 H3]].
      now rewrite H1, H2, H3, E2, E3.
    + assert (finished (onStderrData r chunk) = finished r /\
              var_timedOut (onStderrData r chunk) = var_timedOut r /\
              timerScheduled (onStderrData r chunk) = timerScheduled r)
        as [E1 [E2 E3]] by (handler_cases; repeat split; reflexivity).
      rewrite <- E1 in Hf. destruct (IH _ Hq Hf) as [H1 [H2 H3]].
      now rewrite H1, H2, H3, E2, E3.
    + destruct (timerScheduled r) eqn:Ts.
      * assert (finished (onTimeout r) = false) as Hf'
          by (unfold onTimeout; rewrite Hf; reflexivity).
        destruct (IH _ Hq Hf') as [H1 [H2 H3]]. rewrite H1, H2, H3.
        unfold onTimeout. rewrite Hf. cbn. now rewrite orb_true_r.
      * destruct (IH _ Hq Hf) as [H1 [H2 H3]]. rewrite H1, H2, H3, Ts.
        cbn. now rewrite orb_false_r.
Qed.

(** X3. When the process exits, the promise resolves with the exit code,
    or -1 when the process has none because a signal ended it, with the
    output captured until then, and with [timedOut] set exactly when the
    timer fired before the exit; what is delivered after the exit does
    not change the result. *)
Theorem exit_result (before after : list Event) (code : option Z) :
  quiet before = true ->
  runCommandlet (before ++ Close code :: after) =
  Some {| exitCode := match code with Some c => c | None => -1 end;
          stdout := var_stdout (deliver before);
          stderr := var_stderr (deliver before);
          timedOut := Streams.timerFired before |}.
Proof.
  intros Hq. rewrite (first_terminal_result before after (Close code) Hq eq_refl).
  cbn [Streams.resultOf]. do 2 f_equal.
  destruct (quiet_timer before started Hq eq_refl) as [_ [H _]].
  exact H.
Qed.

(** A process killed by the timer, and one that exits by itself. *)
Lemma exit_result_witness :
  runCommandlet [StdoutData "log"; TimerFired; Close None; StdoutData "late"] =
    Some {| exitCode := -1; stdout := "log"; stderr := ""; timedOut := true |} /\
  runCommandlet [StderrData "warn"; Close (Some 3); TimerFired] =
    Some {| exitCode := 3; stdout := ""; stderr := "warn"; timedOut := false |}.
Proof.
  split.
  - exact (exit_result [StdoutData "log"; TimerFired] [StdoutData "late"] None
             eq_refl).
  - exact (exit_result [StderrData "warn"] [TimerFired] (Some 3) eq_refl).
Defined.

(** ** [scanForScripts]: ties, pruning, and what is never read *)

Section StableSort.

Context {A : Type} (cmp : A -> A -> Z) (p : A -> bool).

Lemma insertBy_filter_out (x : A) (l : list A) :
  p x = false ->
  filter p (FileScanner.insertBy cmp x l) = filter p l.
Proof.
  intros Hx. induction l as [|y t IH]; simpl; [now rewrite Hx|].
  destruct (cmp x y <=? 0); simpl; [now rewrite Hx|].
  now rewrite IH.
Qed.

Hypothesis tied : forall x y, p x = true -> p y = true -> cmp x y <= 0.

Lemma insertBy_filter_in (x : A) (l : list A) :
  p x = true ->
  filter p (FileScanner.insertBy cmp x l) = x :: filter p l.
Proof.
  intros Hx. induction l as [|y t IH]; simpl; [now rewrite Hx|].
  destruct (Z.leb_spec (cmp x y) 0) as [Hxy|Hxy]; simpl; [now rewrite Hx|].
  destruct (p y) eqn:Hy.
  - specialize (tied x y Hx Hy). lia.
  - exact IH.
Qed.

(** The sort keeps elements that the comparator ties in the order they
    had. *)
Lemma sortBy_filter (l : list A) :
  filter p (FileScanner.sortBy cmp l) = filter p l.
Proof.
  induction l as [|x l IH]; simpl; [reflexivity|].
  destruct (p x) eqn:Hx.
  - now rewrite insertBy_filter_in, IH.
  - now rewrite insertBy_filter_out, IH.
Qed.

End StableSort.

(** X4. Files that have the same relative path, found under different
    roots, all appear in the result of [scanForScripts], in the order in
    which they were collected, which follows the order of the roots. *)
Theorem scanForScripts_keeps_ties {P : PathApi}
    (localeCompare : string -> string -> Z) (fs : Fs.FileSystem)
    (roots : list string) (path : string) :
  localeCompare path path <= 0 ->
  filter (Observations.hasRelativePath path)
    (Fs.value (FileScanner.scanForScripts localeCompare fs roots)) =
  filter (Observations.hasRelativePath path)
    (Fs.value (FileScanner.scanRoots fs roots [])).
Proof.
  intros Hrefl. rewrite scanForScripts_value. apply sortBy_filter.
  intros x y Hx Hy. unfold Observations.hasRelativePath in *.
  apply String.eqb_eq in Hx, Hy. unfold FileScanner.byRelativePath.
  now rewrite Hx, Hy.
Qed.

(** The two [Main.as] of [Samples.twins], scanned from [/two] first. *)
Lemma scanForScripts_keeps_ties_witness :
  map FileScanner.root
    (filter (Observations.hasRelativePath "Main.as")
       (Fs.value (FileScanner.scanForScripts (P := posix "/")
                    JS.codePointCompare Samples.twins ["/two"; "/one"])))
  = ["/two"; "/one"].
Proof.
  rewrite (scanForScripts_keeps_ties (P := posix "/") JS.codePointCompare
             Samples.twins ["/two"; "/one"] "Main.as" ltac:(vm_compute; discriminate)).
  reflexivity.
Defined.

(** Induction on the tree of a file system: a directory has the property
    when all its entries have it. *)
Lemma Node_tree_ind (Q : Fs.Node -> Prop) :
  (forall size content, Q (Fs.File size content)) ->
  (forall entries, Forall (fun e => Q (snd e)) entries -> Q (Fs.Dir entries)) ->
  Q Fs.Special ->
  (forall d, Q (Fs.Unreadable d)) ->
  forall n, Q n.
Proof.
  intros Hfile Hdir Hspecial Hunreadable.
  fix IH 1. intros [size content|entries| |d].
  - apply Hfile.
  - apply Hdir. induction entries as [|[name entry] rest IHrest].
    + constructor.
    + constructor; [apply IH | exact IHrest].
  - apply Hspecial.
  - apply Hunreadable.
Qed.

Section ScanFacts.

Context {P : PathApi}.

(** [scanDirectory] on a directory lists it and runs its loop. *)
Lemma scanDirectory_Dir (entries : list (string * Fs.Node))
    (dir rootDir : string) (results : list FileScanner.ScriptFile) :
  FileScanner.scanDirectory (Fs.Dir entries) dir rootDir results =
  Fs.bind (results, [Fs.ReaddirSync dir])
    (Observations.eachEntry dir rootDir entries).
Proof. reflexivity. Qed.

Lemma bind_ext {A B} (m : Fs.IO A) (k1 k2 : A -> Fs.IO B) :
  (forall a, k1 a = k2 a) -> Fs.bind m k1 = Fs.bind m k2.
Proof. intros H. unfold Fs.bind. destruct m as [a t]. now rewrite H. Qed.

Lemma scanAdds_ret (rootDir : string) (results : list FileScanner.ScriptFile) :
  Observations.scanAdds rootDir results (Fs.ret results).
Proof.
  split; [exists []; split; [now rewrite app_nil_r | constructor]|].
  constructor.
Qed.

Lemma scanAdds_bind (rootDir : string) (results : list FileScanner.ScriptFile)
    (m : Fs.IO (list FileScanner.ScriptFile))
    (k : list FileScanner.ScriptFile -> Fs.IO (list FileScanner.ScriptFile)) :
  Observations.scanAdds rootDir results m ->
  (forall rs, Observations.scanAdds rootDir rs (k rs)) ->
  Observations.scanAdds rootDir results (Fs.bind m k).
Proof.
  intros [[added1 [E1 F1]] T1] Hk. unfold Observations.scanAdds.
  rewrite value_bind, trace_bind, E1.
  destruct (Hk (results ++ added1)%list) as [[added2 [E2 F2]] T2].
  split.
  - exists (added1 ++ added2)%list. rewrite app_assoc. split; [exact E2|].
    apply Forall_app. now split.
  - apply Forall_app. now split.
Qed.

Lemma eachEntry_adds (dir rootDir : string) (entries : list (string * Fs.Node)) :
  Forall
    (fun e => forall dir rootDir results,
       Observations.scanAdds rootDir results
         (FileScanner.scanDirectory (snd e) dir rootDir results)) entries ->
  forall results,
    Observations.scanAdds rootDir results
      (Observations.eachEntry dir rootDir entries results).
Proof.
  induction 1 as [|[name entry] rest Hentry _ IHrest]; intros results;
    cbn [Observations.eachEntry].
  - apply scanAdds_ret.
  - cbn [snd] in Hentry.
    destruct (Fs.isDirectory entry).
    + destruct (FileScanner.skipped name); [apply IHrest|].
      apply scanAdds_bind; [apply Hentry | exact IHrest].
    + destruct (Fs.isFile entry && JS.endsWith name ".as"); [|apply IHrest].
      apply scanAdds_bind; [|exact IHrest].
      split; [|repeat constructor]. cbn [Fs.value fst].
      destruct (Fs.statNode entry) as [stats|].
      * eexists [_]. split; [reflexivity|]. now repeat constructor.
      * exists []. split; [now rewrite app_nil_r | constructor].
Qed.

(** A scan of a directory only adds files, all of the root it was given,
    and never reads the content of a file. *)
Lemma scanDirectory_adds (n : Fs.Node) :
  forall dir rootDir results,
    Observations.scanAdds rootDir results
      (FileScanner.scanDirectory n dir rootDir results).
Proof.
  induction n as [size content|entries IH| |d] using Node_tree_ind;
    intros dir rootDir results.
  2: { rewrite scanDirectory_Dir. apply scanAdds_bind.
       - split; [|repeat constructor]. exists []. split;
           [now rewrite app_nil_r | constructor].
       - now apply eachEntry_adds. }
  all: split; [exists []; split; [now rewrite app_nil_r | constructor]
              | repeat constructor].
Qed.

End ScanFacts.

Section RootFacts.

Context {P : PathApi}.

(** The scan of the roots only adds files; each carries one of the
    roots, a directory of the file system, and no file content is read. *)
Lemma scanRoots_adds (fs : Fs.FileSystem) (roots : list string) :
  forall results,
    (exists added,
       Fs.value (FileScanner.scanRoots fs roots results) = (results ++ added)%list /\
       Forall
         (fun f =>
            In (FileScanner.root f) roots /\
            exists entries, Fs.lookup fs (FileScanner.root f) = Some (Fs.Dir entries))
         added) /\
    Forall (fun op => Observations.isContentRead op = false)
      (Fs.trace (FileScanner.scanRoots fs roots results)).
Proof.
  induction roots as [|root rest IH]; intros results.
  - split; [exists []; split; [now rewrite app_nil_r | constructor]|].
    constructor.
  - assert (forall rs,
              (exists added,
                 Fs.value (FileScanner.scanRoots fs rest rs) = (rs ++ added)%list /\
                 Forall
                   (fun f =>
                      In (FileScanner.root f) (root :: rest) /\
                      exists entries,
                        Fs.lookup fs (FileScanner.root f) = Some (Fs.Dir entries))
                   added) /\
              Forall (fun op => Observations.isContentRead op = false)
                (Fs.trace (FileScanner.scanRoots fs rest rs))) as IH'.
    { intros rs. destruct (IH rs) as [[added [E F]] T]. split; [|exact T].
      exists added. split; [exact E|]. eapply Forall_impl; [|exact F].
      intros f [Hin Hdir]. split; [now right | exact Hdir]. }
    cbn [FileScanner.scanRoots]. rewrite value_bind, trace_bind.
    unfold Fs.statSync. cbn [Fs.value Fs.trace fst snd].
    assert (forall A (l : list A) x, ([x] ++ l)%list = x :: l) as Hcons
      by reflexivity.
    rewrite Hcons.
    destruct (Fs.lookup fs root) as [[size content|entries| |d]|] eqn:L;
      cbn [Fs.statNode Fs.statIsDirectory negb];
      try (destruct (IH' results) as [Hv Ht]; split;
           [exact Hv | constructor; [reflexivity | exact Ht]]).
    rewrite value_bind, trace_bind.
    destruct (scanDirectory_adds (Fs.Dir entries) root root results)
      as [[added1 [E1 F1]] T1].
    rewrite E1. destruct (IH' (results ++ added1)%list) as [[added2 [E2 F2]] T2].
    split.
    + exists (added1 ++ added2)%list. rewrite app_assoc. split; [exact E2|].
      apply Forall_app. split; [|exact F2].
      eapply Forall_impl; [|exact F1]. intros f ->.
      split; [now left | now exists entries].
    + constructor; [reflexivity|]. apply Forall_app. now split.
Qed.

(** X5. Every file [scanForScripts] returns carries one of the roots it
    was given, and that root is a directory of the file system: roots
    that are missing, or are not directories, contribute nothing. *)
Theorem scanForScripts_roots (localeCompare : string -> string -> Z)
    (fs : Fs.FileSystem) (roots : list string) (file : FileScanner.ScriptFile) :
  In file (Fs.value (FileScanner.scanForScripts localeCompare fs roots)) ->
  In (FileScanner.root file) roots /\
  exists entries, Fs.lookup fs (FileScanner.root file) = Some (Fs.Dir entries).
Proof.
  rewrite scanForScripts_value. intros Hin.
  apply (Permutation_in _ (sortBy_perm _ _)) in Hin.
  destruct (scanRoots_adds fs roots []) as [[added [E F]] _].
  rewrite E in Hin. cbn [app] in Hin.
  rewrite Forall_forall in F. now apply F.
Qed.

(** A scan never reads the content of a file. *)
Lemma scanForScripts_reads_nothing (localeCompare : string -> string -> Z)
    (fs : Fs.FileSystem) (roots : list string) :
  Forall (fun op => Observations.isContentRead op = false)
    (Fs.trace (FileScanner.scanForScripts localeCompare fs roots)).
Proof.
  unfold FileScanner.scanForScripts. rewrite trace_bind.
  apply Forall_app. split; [apply scanRoots_adds | constructor].
Qed.

(** X6. An entry that [scanDirectory] passes over, a directory named in
    [SKIP_DIRS] or an entry that is neither a directory nor a regular
    file with a name ending in [.as], changes neither the files found nor
    the calls made: a skipped directory is not even listed. *)
Theorem scanDirectory_passes_over (before after : list (string * Fs.Node))
    (name : string) (entry : Fs.Node) (dir rootDir : string)
    (results : list FileScanner.ScriptFile) :
  Observations.passedOver name entry = true ->
  FileScanner.scanDirectory (Fs.Dir (before ++ (name, entry) :: after))
    dir rootDir results =
  FileScanner.scanDirectory (Fs.Dir (before ++ after)) dir rootDir results.
Proof.
  intros Hpass. rewrite !scanDirectory_Dir. apply bind_ext.
  induction before as [|[n e] before IH]; intros rs.
  - cbn [app Observations.eachEntry].
    unfold Observations.passedOver in Hpass.
    destruct (Fs.isDirectory entry).
    + now rewrite Hpass.
    + apply negb_true_iff in Hpass. now rewrite Hpass.
  - cbn [app Observations.eachEntry].
    destruct (Fs.isDirectory e).
    + destruct (FileScanner.skipped n); [apply IH|]. now apply bind_ext.
    + destruct (Fs.isFile e && JS.endsWith n ".as"); [|apply IH].
      now apply bind_ext.
Qed.

End RootFacts.

(** The scripts of [Fixtures.disk] under two roots, one of them missing. *)
Lemma scanForScripts_roots_witness :
  In "/a" ["/a"; "/missing"] /\
  exists entries, Fs.lookup Fixtures.disk "/a" = Some (Fs.Dir entries).
Proof.
  exact (scanForScripts_roots (P := posix "/") JS.codePointCompare Fixtures.disk
           ["/a"; "/missing"]
           {| FileScanner.absolutePath := "/a/y/f.as";
              FileScanner.relativePath := "y/f.as";
              FileScanner.root := "/a";
              FileScanner.size := 3 |}
           ltac:(vm_compute; left; reflexivity)).
Defined.

(** A root with a [.git] directory and a text file: only the script is
    found, and [.git] is not listed. *)
Lemma scanDirectory_passes_over_witness :
  FileScanner.scanDirectory (P := posix "/") (Fs.Dir Samples.cluttered)
    "/r" "/r" [] =
  ([{| FileScanner.absolutePath := "/r/Game.as";
       FileScanner.relativePath := "Game.as";
       FileScanner.root := "/r";
       FileScanner.size := 4 |}],
   [Fs.ReaddirSync "/r"; Fs.StatSync "/r/Game.as"]).
Proof.
  exact (eq_trans
           (scanDirectory_passes_over (P := posix "/") []
              [("notes.txt", Fs.File 5 "notes"); ("Game.as", Fs.File 4 "game")]
              ".git" (Fs.Dir [("hook.as", Fs.File 4 "hook")]) "/r" "/r" []
              eq_refl)
           eq_refl).
Defined.

(** ** [readFileWithLines] and [matchesPattern] *)

Lemma skipn_cons_nth {A} (l : list A) (s : nat) (d : A) :
  (s < List.length l)%nat -> skipn s l = nth s l d :: skipn (S s) l.
Proof.
  revert s. induction l as [|x l IH]; intros s H; simpl in H; [lia|].
  destruct s as [|s]; [reflexivity|]. simpl. apply IH. lia.
Qed.

Lemma range_cons (lo hi : Z) :
  lo < hi -> Scripts.range lo hi = lo :: Scripts.range (lo + 1) hi.
Proof.
  intros H. rewrite (range_app lo (lo + 1) hi) by lia. now rewrite range_one.
Qed.

Lemma range_empty (lo hi : Z) : hi <= lo -> Scripts.range lo hi = [].
Proof.
  intros H. unfold Scripts.range.
  replace (Z.to_nat (hi - lo)) with 0%nat by lia. reflexivity.
Qed.

(** Numbering a stretch of the lines by position gives each line its own
    number. *)
Lemma mapFrom_numbered (lines : list string) (start : Z) (k s : nat) (idx : Z) :
  (s + k <= List.length lines)%nat -> start + idx = Z.of_nat s ->
  JSText.mapFrom
    (fun line idx => JS.toString (start + idx + 1) ++ ":" ++ JS.tab ++ line)
    idx (firstn k (skipn s lines)) =
  map (Scripts.numbered lines)
    (Scripts.range (Z.of_nat s) (Z.of_nat s + Z.of_nat k)).
Proof.
  revert s idx. induction k as [|k IH]; intros s idx Hlen Hidx.
  - rewrite range_empty by lia. reflexivity.
  - rewrite (skipn_cons_nth lines s "undefined") by lia.
    rewrite range_cons by lia. cbn [firstn JSText.mapFrom map].
    f_equal.
    + unfold Scripts.numbered, Scripts.lineAt. rewrite Hidx.
      destruct (Z.ltb_spec (Z.of_nat s) 0); [lia|]. now rewrite Nat2Z.id.
    + rewrite (IH (S s) (idx + 1)) by lia. do 2 f_equal; lia.
Qed.

Lemma slice_numbered (lines : list string) (start stop : Z) :
  0 <= start -> 0 <= stop <= Z.of_nat (List.length lines) ->
  JSText.mapIndexed
    (fun line idx => JS.toString (start + idx + 1) ++ ":" ++ JS.tab ++ line)
    (JSText.slice lines start stop) =
  map (Scripts.numbered lines) (Scripts.range start stop).
Proof.
  intros Hs Hstop. unfold JSText.mapIndexed, JSText.slice.
  destruct (Z.ltb_spec start 0); [lia|]. destruct (Z.ltb_spec stop 0); [lia|].
  rewrite (Z.min_l stop) by lia.
  destruct (Z_lt_ge_dec start stop) as [Hlt|Hge].
  - rewrite (Z.min_l start) by lia.
    rewrite (mapFrom_numbered lines start (Z.to_nat (stop - start))
               (Z.to_nat start) 0) by lia.
    do 2 f_equal; lia.
  - rewrite range_empty by lia.
    replace (Z.to_nat (stop - Z.min start (Z.of_nat (List.length lines))))
      with 0%nat by lia.
    reflexivity.
Qed.

(** X8. [readFileWithLines] with a start line [a] and an end line
    [b >= 1] returns the lines from [max(1, a)] to [min(b, count)] of the
    file, each after its own number, and nothing when that range is
    empty; with no range it returns every line, numbered from 1. *)
Theorem readFileWithLines_range (fs : Fs.FileSystem) (filePath content : string)
    (a b : Z) :
  1 <= b ->
  Fs.value (Fs.readFileSync fs filePath) = Some content ->
  let lines := JS.split (ascii_of_nat 10) content in
  let count := Z.of_nat (List.length lines) in
  Fs.value (ScriptTools.readFileWithLines fs filePath (Some a) (Some b)) =
    Some (JS.join JS.nl
            (map (Scripts.numbered lines)
               (Scripts.range (Z.max 1 a - 1) (Z.min count b)))) /\
  Fs.value (ScriptTools.readFileWithLines fs filePath None None) =
    Some (JS.join JS.nl (map (Scripts.numbered lines) (Scripts.range 0 count))).
Proof.
  intros Hb Hread lines count.
  split; unfold ScriptTools.readFileWithLines; rewrite value_bind, Hread;
    cbn [Fs.value Fs.ret fst option_map]; unfold ScriptTools.numberLines;
    fold lines; fold count; do 2 f_equal.
  - assert (ScriptTools.startIndex (Some a) = Z.max 1 a - 1) as ->.
    { unfold ScriptTools.startIndex. destruct (Z.eqb_spec a 0); lia. }
    assert (ScriptTools.endIndex count (Some b) = Z.min count b) as ->.
    { unfold ScriptTools.endIndex. destruct (Z.eqb_spec b 0); lia. }
    apply slice_numbered; unfold count; lia.
  - cbn [ScriptTools.startIndex ScriptTools.endIndex].
    apply slice_numbered; unfold count; lia.
Qed.

(** A range that runs past the end of the ten-line file: lines 9 and
    10. *)
Lemma readFileWithLines_range_witness :
  Fs.value (ScriptTools.readFileWithLines Fixtures.tenLineDisk "/s/ten.as"
              (Some 9) (Some 50)) =
  Some (JS.join JS.nl (map (Scripts.numbered Fixtures.tenLines) [8; 9])).
Proof.
  exact (proj1 (readFileWithLines_range Fixtures.tenLineDisk "/s/ten.as"
                  (JS.join JS.nl Fixtures.tenLines) 9 50 ltac:(lia) eq_refl)).
Defined.

(** [includes] holds exactly when the text occurs somewhere. *)
Lemma includes_occurs (s sub : string) :
  JSText.includes s sub = true <-> exists before after, s = before ++ sub ++ after.
Proof.
  induction s as [|c s IH]; cbn [JSText.includes].
  - rewrite orb_false_r, startsWith_remainder. split.
    + intros [rest H]. now exists "", rest.
    + intros [before [after H]]. destruct before; [now exists after|discriminate].
  - rewrite orb_true_iff, startsWith_remainder, IH. split.
    + intros [[rest H]|[before [after H]]].
      * now exists "", rest.
      * exists (String c before), after. simpl. now rewrite H.
    + intros [[|d before] [after H]].
      * left. now exists after.
      * right. injection H as _ H. now exists before, after.
Qed.

Lemma lowerChar_idempotent (c : ascii) :
  JSText.lowerChar (JSText.lowerChar c) = JSText.lowerChar c.
Proof.
  destruct c as [[] [] [] [] [] [] [] []]; vm_compute; reflexivity.
Qed.

Lemma lowerChar_asterisk (c : ascii) :
  Ascii.eqb (JSText.lowerChar c) "*" = Ascii.eqb c "*".
Proof.
  destruct c as [[] [] [] [] [] [] [] []]; vm_compute; reflexivity.
Qed.

Lemma toLowerCase_idempotent (s : string) :
  JSText.toLowerCase (JSText.toLowerCase s) = JSText.toLowerCase s.
Proof.
  induction s as [|c s IH]; simpl; [reflexivity|].
  now rewrite lowerChar_idempotent, IH.
Qed.

Lemma toLowerCase_app (s t : string) :
  JSText.toLowerCase (s ++ t) = JSText.toLowerCase s ++ JSText.toLowerCase t.
Proof. induction s as [|c s IH]; simpl; [reflexivity | now rewrite IH]. Qed.

Lemma removeAll_toLowerCase (s : string) :
  JSText.removeAll "*" (JSText.toLowerCase s) =
  JSText.toLowerCase (JSText.removeAll "*" s).
Proof.
  induction s as [|c s IH]; cbn [JSText.toLowerCase JSText.removeAll];
    [reflexivity|].
  rewrite lowerChar_asterisk. destruct (Ascii.eqb c "*"); [exact IH|].
  cbn [JSText.toLowerCase]. now rewrite IH.
Qed.

Lemma includes_empty (s : string) : JSText.includes s "" = true.
Proof. apply includes_occurs. now exists "", s. Qed.

(** X9. [matchesPattern] holds exactly when the path, in lower case,
    contains the pattern in lower case with its asterisks deleted.  So
    the case of letters never matters, a pattern made of asterisks only
    matches every path, and an asterisk stands for nothing: [UI/*.as]
    does not match [UI/Menu.as]. *)
Theorem matchesPattern_contains :
  (forall path pattern,
     ScriptTools.matchesPattern path pattern = true <->
     exists before after,
       JSText.toLowerCase path =
       before ++ JSText.removeAll "*" (JSText.toLowerCase pattern) ++ after) /\
  (forall path pattern,
     ScriptTools.matchesPattern (JSText.toLowerCase path) pattern =
       ScriptTools.matchesPattern path pattern /\
     ScriptTools.matchesPattern path (JSText.toLowerCase pattern) =
       ScriptTools.matchesPattern path pattern) /\
  (forall path pattern,
     JSText.removeAll "*" pattern = "" ->
     ScriptTools.matchesPattern path pattern = true) /\
  ScriptTools.matchesPattern "UI/Menu.as" "UI/*.as" = false.
Proof.
  split; [|split; [|split; [|reflexivity]]].
  - intros path pattern. unfold ScriptTools.matchesPattern. apply includes_occurs.
  - intros path pattern. unfold ScriptTools.matchesPattern.
    now rewrite !toLowerCase_idempotent.
  - intros path pattern H. unfold ScriptTools.matchesPattern.
    rewrite removeAll_toLowerCase, H. apply includes_empty.
Qed.

(** The pattern [**] matches any path. *)
Lemma matchesPattern_contains_witness :
  ScriptTools.matchesPattern "Actors/Enemy.as" "**" = true.
Proof.
  exact (proj1 (proj2 (proj2 matchesPattern_contains))
           "Actors/Enemy.as" "**" eq_refl).
Defined.

(** ** The handlers of [as_read_script], [as_list_scripts] and
    [as_search_scripts] *)

Section ToolFacts.

Context {P : PathApi}.

(** A path that [resolveScriptPath] returns passed its test. *)
Lemma resolveScriptPath_accepted (existsSync : string -> bool)
    (filePath : string) (roots : list string) (r : Scripts.ResolvedPath) :
  Scripts.resolveScriptPath existsSync filePath roots = Some r ->
  Scripts.accepted existsSync roots (Scripts.absolutePath r) = true.
Proof.
  unfold Scripts.resolveScriptPath.
  destruct (isAbsolute filePath).
  - fold (Scripts.accepted existsSync roots filePath).
    destruct (Scripts.accepted existsSync roots filePath) eqn:E; [|discriminate].
    destruct (find _ roots) as [root|]; [|discriminate].
    destruct (JS.falsy root); [discriminate|]. intros [= <-]. exact E.
  - intros H. apply resolveAgainst_first in H.
    destruct H as [before [after [_ [_ [H _]]]]]. exact H.
Qed.

(** X10. [as_read_script] reads at most one file, and only a path that
    exists and is confined to the script roots of the configuration:
    when the path given resolves to nothing, no file is read. *)
Theorem as_read_script_confined (readErrorMessage : string -> string)
    (config : Config.Config) (fs : Fs.FileSystem) (filePath : string)
    (start_line end_line : option Z) :
  (Scripts.resolveScriptPath (Fs.exists_ fs) filePath
     (Config.getScriptRoots config) = None ->
   Fs.trace (ScriptTools.as_read_script readErrorMessage config fs filePath
               start_line end_line) = []) /\
  (forall p,
     In (Fs.ReadFileSync p)
       (Fs.trace (ScriptTools.as_read_script readErrorMessage config fs
                    filePath start_line end_line)) ->
     Scripts.isPathInScriptRoots p (Config.getScriptRoots config) = true /\
     Fs.exists_ fs p = true /\
     Fs.trace (ScriptTools.as_read_script readErrorMessage config fs filePath
                 start_line end_line) = [Fs.ReadFileSync p]).
Proof.
  unfold ScriptTools.as_read_script.
  destruct (negb (Config.configured config));
    [split; [reflexivity | intros p []]|].
  destruct (List.length (Config.getScriptRoots config) =? 0)%nat;
    [split; [reflexivity | intros p []]|].
  destruct (Scripts.resolveScriptPath (Fs.exists_ fs) filePath
              (Config.getScriptRoots config)) as [resolved|] eqn:R;
    [|split; [reflexivity | intros p []]].
  split; [discriminate|]. intros p.
  apply resolveScriptPath_accepted in R. unfold Scripts.accepted in R.
  apply andb_true_iff in R. destruct R as [R1 R2].
  assert (Fs.trace
            (Fs.bind
               (ScriptTools.readFileWithLines fs (Scripts.absolutePath resolved)
                  start_line end_line)
               (fun read =>
                  match read with
                  | Some content =>
                      Fs.ret ("File: "
                                ++ relative (Scripts.root resolved)
                                     (Scripts.absolutePath resolved)
                                ++ JS.nl ++ JSText.repeat "=" 60 ++ JS.nl
                                ++ content)
                  | None =>
                      Fs.ret ("Error reading file: "
                                ++ readErrorMessage (Scripts.absolutePath resolved))
                  end))
          = [Fs.ReadFileSync (Scripts.absolutePath resolved)]) as T.
  { rewrite trace_bind. unfold ScriptTools.readFileWithLines at 1.
    rewrite trace_bind. cbn [Fs.readFileSync Fs.trace Fs.ret snd app].
    now destruct (Fs.value _). }
  rewrite T. intros [H|[]]. injection H as <-. now repeat split.
Qed.

(** X7. [as_list_scripts] never reads the content of a file: it lists
    directories and asks for the status of the scripts it finds. *)
Theorem as_list_scripts_reads_nothing (localeCompare : string -> string -> Z)
    (config : Config.Config) (fs : Fs.FileSystem) (pattern : option string)
    (max_results : Z) :
  Forall (fun op => Observations.isContentRead op = false)
    (Fs.trace (ScriptTools.as_list_scripts localeCompare config fs pattern
                 max_results)).
Proof.
  unfold ScriptTools.as_list_scripts.
  destruct (negb (Config.configured config)); [constructor|].
  destruct (List.length (Config.getScriptRoots config) =? 0)%nat; [constructor|].
  rewrite trace_bind. apply Forall_app. split; [|constructor].
  apply scanForScripts_reads_nothing.
Qed.

End ToolFacts.

(** Reading [A.as] of the project of [Fixtures.disk]; a path through a
    directory that does not exist, [/proj/Script/nope/../A.as], resolves
    to nothing and is not read. *)
Lemma as_read_script_confined_witness :
  (Scripts.isPathInScriptRoots (P := posix "/") "/proj/Script/A.as"
     (Config.getScriptRoots (P := posix "/") Fixtures.project) = true /\
   Fs.exists_ Fixtures.disk "/proj/Script/A.as" = true) /\
  Fs.trace
    (ScriptTools.as_read_script (P := posix "/") (fun _ => "EACCES")
       Fixtures.project Fixtures.disk "/proj/Script/nope/../A.as" None None)
  = [].
Proof.
  pose proof (proj2 (as_read_script_confined (P := posix "/")
                       (fun _ => "EACCES") Fixtures.project Fixtures.disk
                       "A.as" None None)
                "/proj/Script/A.as" ltac:(vm_compute; left; reflexivity)) as H.
  pose proof (proj1 (as_read_script_confined (P := posix "/")
                       (fun _ => "EACCES") Fixtures.project Fixtures.disk
                       "/proj/Script/nope/../A.as" None None)
                eq_refl) as N.
  exact (conj (conj (proj1 H) (proj1 (proj2 H))) N).
Defined.

(** The inner loop reports the first matches of the file, as many as the
    cap leaves room for. *)
Lemma pushMatches_firstn (max_results : Z) (file : FileScanner.ScriptFile)
    (matches : list Scripts.SearchMatch) :
  forall results matchCount,
    Scripts.pushMatches max_results file matches results matchCount =
    ((results ++
        flat_map Observations.reported
          (map (fun m => (file, m))
             (firstn (Z.to_nat (max_results - matchCount)) matches)))%list,
     matchCount
       + Z.of_nat (List.length
                     (firstn (Z.to_nat (max_results - matchCount)) matches))).
Proof.
  induction matches as [|m rest IH]; intros results matchCount;
    cbn [Scripts.pushMatches].
  - rewrite firstn_nil. cbn. now rewrite app_nil_r, Z.add_0_r.
  - destruct (Z.geb_spec matchCount max_results) as [Hge|Hlt].
    + replace (Z.to_nat (max_results - matchCount)) with 0%nat by lia.
      cbn. now rewrite app_nil_r, Z.add_0_r.
    + rewrite IH.
      replace (Z.to_nat (max_results - matchCount))
        with (S (Z.to_nat (max_results - (matchCount + 1)))) by lia.
      cbn [firstn map flat_map List.length].
      unfold Observations.reported at 2. cbn [fst snd].
      rewrite <- app_assoc. f_equal. lia.
Qed.

Lemma allMatches_cons (fs : Fs.FileSystem) (regex : Scripts.RegExp) (ctx : Z)
    (file : FileScanner.ScriptFile) (rest : list FileScanner.ScriptFile) :
  Observations.allMatches fs regex ctx (file :: rest) =
  (map (fun m => (file, m)) (Fs.value (Scripts.searchInFile fs file regex ctx))
   ++ Observations.allMatches fs regex ctx rest)%list.
Proof. reflexivity. Qed.

Lemma searchFiles_firstn (fs : Fs.FileSystem) (ctx max_results : Z)
    (regex : Scripts.RegExp) (files : list FileScanner.ScriptFile) :
  forall results matchCount,
    Fs.value (Scripts.searchFiles fs ctx max_results regex files results matchCount) =
    ((results ++
        flat_map Observations.reported
          (firstn (Z.to_nat (max_results - matchCount))
             (Observations.allMatches fs regex ctx files)))%list,
     matchCount
       + Z.of_nat (List.length
                     (firstn (Z.to_nat (max_results - matchCount))
                        (Observations.allMatches fs regex ctx files)))).
Proof.
  induction files as [|file rest IH]; intros results matchCount;
    cbn [Scripts.searchFiles].
  - cbn. now rewrite firstn_nil, app_nil_r, Z.add_0_r.
  - destruct (Z.geb_spec matchCount max_results) as [Hge|Hlt].
    + replace (Z.to_nat (max_results - matchCount)) with 0%nat by lia.
      cbn. now rewrite app_nil_r, Z.add_0_r.
    + rewrite value_bind, pushMatches_firstn, IH, allMatches_cons.
      set (found := Fs.value (Scripts.searchInFile fs file regex ctx)).
      set (k := Z.to_nat (max_results - matchCount)).
      rewrite firstn_app, length_map, flat_map_app, length_app, <- app_assoc.
      rewrite firstn_map, length_map.
      assert (Z.to_nat
                (max_results - (matchCount + Z.of_nat (List.length (firstn k found))))
              = (k - List.length (firstn k found))%nat) as -> by lia.
      rewrite length_firstn.
      destruct (Nat.le_gt_cases k (List.length found)) as [Hk|Hk].
      * rewrite Nat.min_l by lia.
        replace (k - k)%nat with 0%nat by lia.
        replace (k - List.length found)%nat with 0%nat by lia.
        cbn [firstn List.length]. f_equal. lia.
      * rewrite Nat.min_r by lia. f_equal. lia.
Qed.

(** The files read are the first ones of the list, each once, in order. *)
Lemma searchFiles_trace (fs : Fs.FileSystem) (ctx max_results : Z)
    (regex : Scripts.RegExp) (files : list FileScanner.ScriptFile) :
  forall results matchCount,
    exists k,
      Fs.trace (Scripts.searchFiles fs ctx max_results regex files results matchCount) =
      map (fun f => Fs.ReadFileSync (FileScanner.absolutePath f)) (firstn k files).
Proof.
  induction files as [|file rest IH]; intros results matchCount;
    cbn [Scripts.searchFiles].
  - now exists 0%nat.
  - destruct (matchCount >=? max_results); [now exists 0%nat|].
    rewrite trace_bind.
    destruct (Scripts.pushMatches max_results file
                (Fs.value (Scripts.searchInFile fs file regex ctx)) results
                matchCount) as [results' matchCount'].
    destruct (IH results' matchCount') as [k Hk]. exists (S k).
    rewrite Hk. unfold Scripts.searchInFile. rewrite trace_bind.
    cbn [Fs.readFileSync Fs.trace snd firstn map app].
    now destruct (Fs.value _).
Qed.

(** X11. The loop of [as_search_scripts] reports the matches in the order
    of the files and, within a file, of the lines, and stops at the cap:
    what it reports is the first [max_results] matches of all the files,
    and the count is their number; a cap of zero or less reports
    nothing. *)
Theorem searchFiles_reports_first (fs : Fs.FileSystem) (ctx max_results : Z)
    (regex : Scripts.RegExp) (files : list FileScanner.ScriptFile) :
  Fs.value (Scripts.searchFiles fs ctx max_results regex files [] 0) =
  (flat_map Observations.reported
     (firstn (Z.to_nat max_results) (Observations.allMatches fs regex ctx files)),
   Z.of_nat (List.length
               (firstn (Z.to_nat max_results)
                  (Observations.allMatches fs regex ctx files)))).
Proof.
  rewrite searchFiles_firstn. cbn [app]. now rewrite Z.sub_0_r, Z.add_0_l.
Qed.

Section SearchToolFacts.

Context {P : PathApi}.

(** X12. [as_search_scripts] reads the content of no file but those its
    scan of the script roots returned. *)
Theorem as_search_scripts_reads_scanned (localeCompare : string -> string -> Z)
    (RegExp_new : string -> Scripts.RegExp + string) (config : Config.Config)
    (fs : Fs.FileSystem) (pattern : string) (context_lines max_results : Z)
    (p : string) :
  In (Fs.ReadFileSync p)
    (Fs.trace (Scripts.as_search_scripts localeCompare RegExp_new config fs
                 pattern context_lines max_results)) ->
  exists file,
    In file (Fs.value (FileScanner.scanForScripts localeCompare fs
                         (Config.getScriptRoots config))) /\
    FileScanner.absolutePath file = p.
Proof.
  unfold Scripts.as_search_scripts.
  destruct (negb (Config.configured config)); [intros []|].
  destruct (List.length (Config.getScriptRoots config) =? 0)%nat; [intros []|].
  destruct (RegExp_new pattern) as [regex|message]; [|intros []].
  rewrite trace_bind. intros Hin. apply in_app_or in Hin.
  destruct Hin as [Hin|Hin].
  - pose proof (scanForScripts_reads_nothing localeCompare fs
                  (Config.getScriptRoots config)) as Hscan.
    rewrite Forall_forall in Hscan. specialize (Hscan _ Hin). discriminate.
  - rewrite trace_bind in Hin. apply in_app_or in Hin.
    destruct Hin as [Hin|Hin].
    + destruct (searchFiles_trace fs context_lines max_results regex
                  (Fs.value (FileScanner.scanForScripts localeCompare fs
                               (Config.getScriptRoots config))) [] 0) as [k Hk].
      rewrite Hk in Hin. apply in_map_iff in Hin.
      destruct Hin as [file [Hfile Hin]]. injection Hfile as Hfile.
      exists file. split; [|exact Hfile].
      rewrite <- (firstn_skipn k). apply in_or_app. now left.
    + destruct (Fs.value (Scripts.searchFiles _ _ _ _ _ _ _)) as [results count].
      destruct Hin.
Qed.

End SearchToolFacts.

(** A witness for X12: the search for [TODO] in the project of
    [Fixtures.disk] reads [A.as], which the scan returned. *)
Lemma as_search_scripts_reads_scanned_witness :
  exists file,
    In file (Fs.value (FileScanner.scanForScripts (P := posix "/")
                         JS.codePointCompare Fixtures.disk
                         (Config.getScriptRoots (P := posix "/") Fixtures.project))) /\
    FileScanner.absolutePath file = "/proj/Script/A.as".
Proof.
  apply (as_search_scripts_reads_scanned (P := posix "/") JS.codePointCompare
           Fixtures.compile Fixtures.project Fixtures.disk "TODO" 1 20).
  vm_compute. do 4 right. left. reflexivity.
Defined.

Lemma range_sorted (lo hi : Z) : StronglySorted Z.lt (Scripts.range lo hi).
Proof.
  remember (Z.to_nat (hi - lo)) as n eqn:Hn. revert lo Hn.
  induction n as [|n IH]; intros lo Hn.
  - rewrite range_empty by lia. constructor.
  - rewrite range_cons by lia. constructor; [apply IH; lia|].
    apply Forall_forall. intros k Hk. apply range_In in Hk. lia.
Qed.

Lemma StronglySorted_filter_lt (f : Z -> bool) (l : list Z) :
  StronglySorted Z.lt l -> StronglySorted Z.lt (filter f l).
Proof.
  induction 1 as [|x l Hl IH Hx]; simpl; [constructor|].
  destruct (f x); [|exact IH]. constructor; [exact IH|].
  rewrite Forall_forall in *. intros y Hy. apply filter_In in Hy. now apply Hx.
Qed.

(** X13. The matches [searchInFile] returns come in ascending order of
    their line numbers, no line twice; a file that cannot be read gives
    no match. *)
Theorem searchInFile_ascending (fs : Fs.FileSystem)
    (file : FileScanner.ScriptFile) (pattern : Scripts.RegExp) (N : Z) :
  StronglySorted Z.lt
    (map Scripts.line (Fs.value (Scripts.searchInFile fs file pattern N))) /\
  (Fs.value (Fs.readFileSync fs (FileScanner.absolutePath file)) = None ->
   Fs.value (Scripts.searchInFile fs file pattern N) = []).
Proof.
  rewrite searchInFile_value.
  destruct (Fs.value (Fs.readFileSync fs (FileScanner.absolutePath file)))
    as [content|]; [|split; [constructor | reflexivity]].
  split; [|discriminate].
  rewrite searchLines_filter, map_map. cbn [Scripts.matchAt Scripts.line].
  set (lines := JS.split (ascii_of_nat 10) content).
  pose proof (StronglySorted_filter_lt
                (fun i => pattern (Scripts.lineAt lines i)) _
                (range_sorted 0 (Z.of_nat (List.length lines)))) as H.
  induction H as [|i l Hl IH Hi]; simpl; constructor; [exact IH|].
  rewrite Forall_forall in *. intros y Hy. apply in_map_iff in Hy.
  destruct Hy as [j [<- Hj]]. specialize (Hi j Hj). lia.
Qed.

(** ** The documentation loader *)

Lemma substring_after (a r : string) (k : nat) :
  String.substring (String.length a) k (a ++ r) = String.substring 0 k r.
Proof. induction a as [|c a IH]; simpl; [reflexivity | exact IH]. Qed.

(** A line that matches a heading pattern is the marker followed by the
    text captured, which is not empty. *)
Lemma matchAfter_some (marker line rest : string) :
  Docs.matchAfter marker line = Some rest -> line = marker ++ rest /\ rest <> "".
Proof.
  unfold Docs.matchAfter.
  destruct (JS.startsWith line marker) eqn:S; [|discriminate].
  apply startsWith_remainder in S. destruct S as [r ->].
  rewrite substring_after, string_length_app.
  replace (String.length marker + String.length r - String.length marker)%nat
    with (String.length r) by lia.
  rewrite substring_zero_all by lia.
  destruct (String.eqb_spec r ""); cbn [negb andb]; [discriminate|].
  destruct (Docs.noLineTerminator r); [|discriminate].
  intros [= <-]. now split.
Qed.

Lemma join_cons (sep x : string) (l : list string) :
  JS.join sep (x :: l) =
  x ++ match l with [] => "" | _ => sep ++ JS.join sep l end.
Proof.
  unfold JS.join. destruct l; cbn [String.concat];
    [now rewrite string_app_nil_r | reflexivity].
Qed.

Lemma join_cons_more (sep x : string) (l : list string) :
  l <> [] -> JS.join sep (x :: l) = x ++ sep ++ JS.join sep l.
Proof. intros H. rewrite join_cons. destruct l; [contradiction | reflexivity]. Qed.

Lemma join_one (sep x : string) : JS.join sep [x] = x.
Proof. reflexivity. Qed.

Lemma join_app (sep : string) (a b : list string) :
  a <> [] -> b <> [] ->
  JS.join sep (a ++ b) = JS.join sep a ++ sep ++ JS.join sep b.
Proof.
  intros Ha Hb. induction a as [|x a IH]; [contradiction|].
  destruct a as [|y a].
  - cbn [app]. now rewrite join_cons_more, join_one.
  - change ((x :: y :: a) ++ b)%list with (x :: ((y :: a) ++ b))%list.
    rewrite (join_cons_more sep x ((y :: a) ++ b)) by discriminate.
    rewrite (join_cons_more sep x (y :: a)) by discriminate.
    rewrite IH by discriminate. now rewrite !string_app_assoc.
Qed.

(** Joining the joined groups is joining all their lines. *)
Lemma join_groups (sep : string) (groups : list (list string)) :
  Forall (fun g => g <> []) groups ->
  JS.join sep (map (JS.join sep) groups) = JS.join sep (List.concat groups).
Proof.
  induction 1 as [|g groups Hg Hgroups IH]; [reflexivity|].
  cbn [map List.concat]. destruct groups as [|g' groups].
  - cbn [map List.concat]. now rewrite app_nil_r, join_one.
  - rewrite join_app.
    + rewrite join_cons_more by discriminate. now rewrite IH.
    + assumption.
    + inversion Hgroups; subst. cbn [List.concat]. destruct g'; [contradiction|].
      discriminate.
Qed.

Section LoaderFacts.

Variable allCategories : list Docs.Category.
Variable testIgnoringCase : string -> string -> bool.
Variable source : string.

(** The loop keeps every line from the first heading on, in groups that
    begin at the headings. *)
Lemma chunkLines_groups (lines : list string) :
  forall chunks current groups,
    map Docs.content chunks = map (JS.join JS.nl) groups ->
    Forall (fun g => g <> []) groups ->
    (forall raw, current = Some raw -> Docs.rawLines raw <> []) ->
    exists groups',
      map Docs.content (fst (Docs.chunkLines allCategories testIgnoringCase source lines chunks current))
        = map (JS.join JS.nl) groups' /\
      Forall (fun g => g <> []) groups' /\
      (forall raw, snd (Docs.chunkLines allCategories testIgnoringCase source lines chunks current) = Some raw ->
                   Docs.rawLines raw <> []) /\
      (List.concat groups'
         ++ Observations.pendingLines (snd (Docs.chunkLines allCategories testIgnoringCase source lines chunks current)))%list
      = (List.concat groups ++ Observations.pendingLines current
           ++ match current with
              | Some _ => lines
              | None => Observations.fromFirstHeading lines
              end)%list.
Proof.
  induction lines as [|line rest IH]; intros chunks current groups Hc Hg Hcur.
  - exists groups. cbn [Docs.chunkLines fst snd]. repeat split; try assumption.
    destruct current;
      cbn [Observations.pendingLines Observations.fromFirstHeading app];
      now rewrite ?app_nil_r.
  - assert (forall chunks' groups',
              map Docs.content chunks' = map (JS.join JS.nl) groups' ->
              Forall (fun g => g <> []) groups' ->
              forall heading level,
              (List.concat groups' ++ [line] ++ rest)%list
              = (List.concat groups ++ Observations.pendingLines current
                   ++ match current with
                      | Some _ => line :: rest
                      | None => line :: rest
                      end)%list ->
              exists groups'',
                map Docs.content
                  (fst (Docs.chunkLines allCategories testIgnoringCase source rest chunks'
                          (Some {| Docs.rawHeading := heading;
                                   Docs.rawLevel := level;
                                   Docs.rawLines := [line] |})))
                  = map (JS.join JS.nl) groups'' /\
                Forall (fun g => g <> []) groups'' /\
                (forall raw,
                   snd (Docs.chunkLines allCategories testIgnoringCase source rest chunks'
                          (Some {| Docs.rawHeading := heading;
                                   Docs.rawLevel := level;
                                   Docs.rawLines := [line] |})) = Some raw ->
                   Docs.rawLines raw <> []) /\
                (List.concat groups''
                   ++ Observations.pendingLines
                        (snd (Docs.chunkLines allCategories testIgnoringCase source rest chunks'
                                (Some {| Docs.rawHeading := heading;
                                         Docs.rawLevel := level;
                                         Docs.rawLines := [line] |}))))%list
                = (List.concat groups ++ Observations.pendingLines current
                     ++ line :: rest)%list) as Hstart.
    { intros chunks' groups' Hc' Hg' heading level Heq.
      destruct (IH chunks' (Some {| Docs.rawHeading := heading;
                                    Docs.rawLevel := level;
                                    Docs.rawLines := [line] |}) groups' Hc' Hg')
        as [groups'' [H1 [H2 [H3 H4]]]].
      - intros raw [= <-]. discriminate.
      - exists groups''. repeat split; try assumption.
        rewrite H4. cbn [Observations.pendingLines Docs.rawLines].
        rewrite Heq. now destruct current. }
    assert (forall heading level,
              Observations.isHeading line = true ->
              exists groups'',
                map Docs.content
                  (fst (Docs.chunkLines allCategories testIgnoringCase source rest
                          match current with
                          | Some chunk => (chunks ++ [Docs.finalizeChunk allCategories testIgnoringCase chunk source])%list
                          | None => chunks
                          end
                          (Some {| Docs.rawHeading := heading;
                                   Docs.rawLevel := level;
                                   Docs.rawLines := [line] |})))
                  = map (JS.join JS.nl) groups'' /\
                Forall (fun g => g <> []) groups'' /\
                (forall raw,
                   snd (Docs.chunkLines allCategories testIgnoringCase source rest
                          match current with
                          | Some chunk => (chunks ++ [Docs.finalizeChunk allCategories testIgnoringCase chunk source])%list
                          | None => chunks
                          end
                          (Some {| Docs.rawHeading := heading;
                                   Docs.rawLevel := level;
                                   Docs.rawLines := [line] |})) = Some raw ->
                   Docs.rawLines raw <> []) /\
                (List.concat groups''
                   ++ Observations.pendingLines
                        (snd (Docs.chunkLines allCategories testIgnoringCase source rest
                                match current with
                                | Some chunk =>
                                    (chunks ++ [Docs.finalizeChunk allCategories testIgnoringCase chunk source])%list
                                | None => chunks
                                end
                                (Some {| Docs.rawHeading := heading;
                                         Docs.rawLevel := level;
                                         Docs.rawLines := [line] |}))))%list
                = (List.concat groups ++ Observations.pendingLines current
                     ++ match current with
                        | Some _ => line :: rest
                        | None => Observations.fromFirstHeading (line :: rest)
                        end)%list) as Hheading.
    { intros heading level Hh.
      cbn [Observations.fromFirstHeading]. rewrite Hh.
      destruct current as [chunk|].
      - apply (Hstart _ (groups ++ [Docs.rawLines chunk])%list).
        + rewrite !map_app, Hc. reflexivity.
        + apply Forall_app. split; [assumption|].
          constructor; [now apply Hcur | constructor].
        + rewrite concat_app. cbn [List.concat Observations.pendingLines].
          now rewrite app_nil_r, <- !app_assoc.
      - apply (Hstart _ groups); try assumption. reflexivity. }
    cbn [Docs.chunkLines].
    destruct (Docs.h2Match line) as [t2|] eqn:M2;
      [|destruct (Docs.h3Match line) as [t3|] eqn:M3].
    + destruct (Docs.h3Match line);
        apply Hheading; unfold Observations.isHeading; now rewrite M2.
    + apply Hheading. unfold Observations.isHeading. now rewrite M2, M3.
    + assert (Observations.isHeading line = false) as Hh
        by (unfold Observations.isHeading; now rewrite M2, M3).
      cbn [Observations.fromFirstHeading]. rewrite Hh.
      destruct current as [chunk|].
      * destruct (IH chunks
                    (Some {| Docs.rawHeading := Docs.rawHeading chunk;
                             Docs.rawLevel := Docs.rawLevel chunk;
                             Docs.rawLines := (Docs.rawLines chunk ++ [line])%list |})
                    groups Hc Hg) as [groups'' [H1 [H2 [H3 H4]]]].
        -- intros raw [= <-]. cbn. now destruct (Docs.rawLines chunk).
        -- exists groups''. repeat split; try assumption.
           rewrite H4. cbn [Observations.pendingLines Docs.rawLines].
           now rewrite <- !app_assoc.
      * destruct (IH chunks None groups Hc Hg) as [groups'' [H1 [H2 [H3 H4]]]].
        -- discriminate.
        -- exists groups''. repeat split; assumption.
Qed.

(** Every heading line begins a chunk, and nothing else does. *)
Lemma chunkLines_count (lines : list string) :
  forall chunks current,
    (List.length
       (fst (Docs.chunkLines allCategories testIgnoringCase source lines
               chunks current))
     + Observations.collecting
         (snd (Docs.chunkLines allCategories testIgnoringCase source lines
                 chunks current))
     = List.length chunks + Observations.collecting current
       + List.length (filter Observations.isHeading lines))%nat.
Proof.
  induction lines as [|line rest IH]; intros chunks current.
  - cbn [Docs.chunkLines fst snd filter List.length]. lia.
  - assert (forall heading level,
              (List.length
                 match current with
                 | Some chunk =>
                     (chunks
                        ++ [Docs.finalizeChunk allCategories testIgnoringCase
                              chunk source])%list
                 | None => chunks
                 end
               + Observations.collecting
                   (Some {| Docs.rawHeading := heading;
                            Docs.rawLevel := level;
                            Docs.rawLines := [line] |})
               = List.length chunks + Observations.collecting current + 1)%nat)
      as Hpushed.
    { intros heading level. destruct current as [chunk|];
        cbn [Observations.collecting]; [rewrite length_app; cbn|]; lia. }
    cbn [Docs.chunkLines filter]. unfold Observations.isHeading at 1.
    destruct (Docs.h2Match line) as [t2|];
      [|destruct (Docs.h3Match line) as [t3|]].
    + destruct (Docs.h3Match line); rewrite IH, Hpushed; cbn [List.length]; lia.
    + rewrite IH, Hpushed. cbn [List.length]. lia.
    + destruct current as [chunk|]; rewrite IH; cbn [Observations.collecting];
        lia.
Qed.

Lemma fromFirstHeading_none (lines : list string) :
  Observations.fromFirstHeading lines = [] ->
  filter Observations.isHeading lines = [].
Proof.
  induction lines as [|line rest IH]; [reflexivity|].
  cbn [Observations.fromFirstHeading filter].
  destruct (Observations.isHeading line); [discriminate | exact IH].
Qed.

Lemma chunkMarkdown_count (content : string) :
  List.length (Docs.chunkMarkdown allCategories testIgnoringCase content source)
  = List.length
      (filter Observations.isHeading
         (JS.split Docs.LF (Docs.replaceCR (Docs.replaceCRLF content)))).
Proof.
  unfold Docs.chunkMarkdown.
  set (lines := JS.split Docs.LF (Docs.replaceCR (Docs.replaceCRLF content))).
  pose proof (chunkLines_count lines [] None) as H.
  destruct (Docs.chunkLines allCategories testIgnoringCase source lines [] None)
    as [chunks current].
  cbn [fst snd List.length Observations.collecting] in H.
  destruct current as [chunk|]; cbn [Observations.collecting] in H;
    [rewrite length_app; cbn [List.length]|]; lia.
Qed.

(** X14. The texts of the chunks [chunkMarkdown] returns, joined by line
    feeds, are the document from its first heading of level 2 or 3 on,
    with its line ends normalized: only what stands before the first
    heading is left out.  There are as many chunks as heading lines, so a
    document with no heading gives no chunk. *)
Theorem chunkMarkdown_round_trip (content : string) :
  JS.join JS.nl
    (map Docs.content
       (Docs.chunkMarkdown allCategories testIgnoringCase content source)) =
  JS.join JS.nl
    (Observations.fromFirstHeading
       (JS.split Docs.LF (Docs.replaceCR (Docs.replaceCRLF content)))) /\
  List.length (Docs.chunkMarkdown allCategories testIgnoringCase content source)
  = List.length
      (filter Observations.isHeading
         (JS.split Docs.LF (Docs.replaceCR (Docs.replaceCRLF content)))) /\
  (Observations.fromFirstHeading
     (JS.split Docs.LF (Docs.replaceCR (Docs.replaceCRLF content))) = [] ->
   Docs.chunkMarkdown allCategories testIgnoringCase content source = []).
Proof.
  split; [|split; [apply chunkMarkdown_count|]].
  - unfold Docs.chunkMarkdown.
    set (lines := JS.split Docs.LF (Docs.replaceCR (Docs.replaceCRLF content))).
    destruct (chunkLines_groups lines [] None [] eq_refl (Forall_nil _))
      as [groups [H1 [H2 [H3 H4]]]]; [discriminate|].
    cbn [List.concat app Observations.pendingLines] in H4.
    destruct (Docs.chunkLines allCategories testIgnoringCase source lines []
                None) as [chunks current].
    cbn [fst snd] in *. rewrite <- H4.
    destruct current as [chunk|]; cbn [Observations.pendingLines].
    + rewrite map_app, H1.
      change (map Docs.content
                [Docs.finalizeChunk allCategories testIgnoringCase chunk source])
        with (map (JS.join JS.nl) [Docs.rawLines chunk]).
      rewrite <- map_app.
      rewrite join_groups.
      * rewrite concat_app. cbn [List.concat]. now rewrite app_nil_r.
      * apply Forall_app. split; [assumption|].
        constructor; [now apply H3 | constructor].
    + rewrite app_nil_r, H1. now apply join_groups.
  - intros Hnone. apply fromFirstHeading_none in Hnone.
    pose proof (chunkMarkdown_count content) as Hcount.
    rewrite Hnone in Hcount. cbn [List.length] in Hcount.
    now apply length_zero_iff_nil.
Qed.

(** A chunk that begins with its heading line is finalized into a chunk
    whose text begins with it. *)
Lemma finalizeChunk_wellFormed (raw : Docs.RawChunk) :
  Observations.wellBegun raw ->
  Observations.wellFormed source
    (Docs.finalizeChunk allCategories testIgnoringCase raw source).
Proof.
  intros [Hh [more Hl]]. unfold Observations.wellFormed.
  cbn [Docs.finalizeChunk Docs.source Docs.id Docs.heading Docs.level
       Docs.content].
  split; [reflexivity|]. split; [reflexivity|]. split; [assumption|].
  exists (match more with [] => "" | _ => JS.nl ++ JS.join JS.nl more end).
  split.
  - destruct more; [now left|]. right. eexists. reflexivity.
  - destruct Hl as [[Hlev Hl] | [Hlev Hl]]; [left|right];
      (split; [assumption|]); rewrite Hl, join_cons;
      now rewrite string_app_assoc.
Qed.

Lemma chunkLines_wellFormed (lines : list string) :
  forall chunks current,
    Forall (Observations.wellFormed source) chunks ->
    (forall raw, current = Some raw -> Observations.wellBegun raw) ->
    Forall (Observations.wellFormed source)
      (fst (Docs.chunkLines allCategories testIgnoringCase source lines
              chunks current)) /\
    (forall raw,
       snd (Docs.chunkLines allCategories testIgnoringCase source lines
              chunks current) = Some raw ->
       Observations.wellBegun raw).
Proof.
  induction lines as [|line rest IH]; intros chunks current Hc Hcur.
  - cbn [Docs.chunkLines fst snd]. now split.
  - assert (Forall (Observations.wellFormed source)
              match current with
              | Some chunk =>
                  (chunks
                     ++ [Docs.finalizeChunk allCategories testIgnoringCase
                           chunk source])%list
              | None => chunks
              end) as Hpushed.
    { destruct current as [chunk|]; [|assumption].
      apply Forall_app. split; [assumption|].
      constructor; [|constructor].
      apply finalizeChunk_wellFormed. now apply Hcur. }
    cbn [Docs.chunkLines].
    destruct (Docs.h2Match line) as [t2|] eqn:M2;
      [|destruct (Docs.h3Match line) as [t3|] eqn:M3].
    + apply matchAfter_some in M2. destruct M2 as [Hline Ht].
      destruct (Docs.h3Match line);
        (apply IH; [exact Hpushed|]); intros raw [= <-];
        (split; [exact Ht|]); exists []; left;
        (split; [reflexivity|]); cbn [Docs.rawLines Docs.rawHeading];
        now rewrite Hline at 1.
    + apply matchAfter_some in M3. destruct M3 as [Hline Ht].
      apply IH; [exact Hpushed|]. intros raw [= <-].
      split; [exact Ht|]. exists []. right. split; [reflexivity|].
      cbn [Docs.rawLines Docs.rawHeading]. now rewrite Hline at 1.
    + destruct current as [chunk|].
      * apply IH; [assumption|]. intros raw [= <-].
        destruct (Hcur chunk eq_refl) as [Hh [more Hl]].
        split; [exact Hh|]. exists (more ++ [line])%list.
        cbn [Docs.rawHeading Docs.rawLevel Docs.rawLines].
        destruct Hl as [[Hlev Hl] | [Hlev Hl]]; [left|right];
          (split; [assumption|]); now rewrite Hl.
      * apply IH; [assumption|]. discriminate.
Qed.

Lemma chunkMarkdown_wellFormed (content : string) :
  Forall (Observations.wellFormed source)
    (Docs.chunkMarkdown allCategories testIgnoringCase content source).
Proof.
  unfold Docs.chunkMarkdown.
  set (lines := JS.split Docs.LF (Docs.replaceCR (Docs.replaceCRLF content))).
  destruct (chunkLines_wellFormed lines [] None (Forall_nil _)) as [H1 H2];
    [discriminate|].
  destruct (Docs.chunkLines allCategories testIgnoringCase source lines [] None)
    as [chunks current].
  cbn [fst snd] in *. destruct current as [chunk|]; [|assumption].
  apply Forall_app. split; [assumption|]. constructor; [|constructor].
  apply finalizeChunk_wellFormed. now apply H2.
Qed.

(** What holds of every finalized chunk holds of every chunk returned. *)
Lemma chunkLines_finalized (Q : Docs.DocChunk -> Prop) :
  (forall raw,
     Q (Docs.finalizeChunk allCategories testIgnoringCase raw source)) ->
  forall lines chunks current,
    Forall Q chunks ->
    Forall Q
      (fst (Docs.chunkLines allCategories testIgnoringCase source lines
              chunks current)).
Proof.
  intros HQ. induction lines as [|line rest IH]; intros chunks current Hc;
    [exact Hc|].
  assert (Forall Q
            match current with
            | Some chunk =>
                (chunks
                   ++ [Docs.finalizeChunk allCategories testIgnoringCase
                         chunk source])%list
            | None => chunks
            end) as Hpushed.
  { destruct current as [chunk|]; [|assumption].
    apply Forall_app. split; [assumption|]. constructor; [apply HQ|constructor]. }
  cbn [Docs.chunkLines].
  destruct (Docs.h2Match line); destruct (Docs.h3Match line);
    try (apply IH; exact Hpushed).
  destruct current; apply IH; exact Hc.
Qed.

Lemma chunkMarkdown_finalized (Q : Docs.DocChunk -> Prop) (content : string) :
  (forall raw,
     Q (Docs.finalizeChunk allCategories testIgnoringCase raw source)) ->
  Forall Q (Docs.chunkMarkdown allCategories testIgnoringCase content source).
Proof.
  intros HQ. unfold Docs.chunkMarkdown.
  set (lines := JS.split Docs.LF (Docs.replaceCR (Docs.replaceCRLF content))).
  pose proof (chunkLines_finalized Q HQ lines [] None (Forall_nil _)) as H.
  destruct (Docs.chunkLines allCategories testIgnoringCase source lines [] None)
    as [chunks current].
  cbn [fst] in H. destruct current as [chunk|]; [|assumption].
  apply Forall_app. split; [assumption|]. constructor; [apply HQ|constructor].
Qed.

Lemma categorizeChunk_table (content id : string) :
  In id (Docs.categorizeChunk allCategories testIgnoringCase content) ->
  exists category,
    In category allCategories /\ Docs.categoryId category = id /\
    (2 <= List.length (Docs.keywords category))%nat.
Proof.
  unfold Docs.categorizeChunk. intros H. apply in_map_iff in H.
  destruct H as [category [Hid H]]. apply filter_In in H.
  destruct H as [Hin Hcount]. exists category.
  split; [assumption|]. split; [assumption|].
  apply Nat.leb_le in Hcount.
  eapply Nat.le_trans; [exact Hcount | apply filter_length_le].
Qed.

(** X15. Every chunk [chunkMarkdown] returns carries the name of its
    document, has the identifier made of that name and the slug of its
    heading, has a heading that is not empty, and a text that begins with
    its heading line, [## ] before the heading at level 2 and [### ] at
    level 3, followed by nothing or by a line feed and the further
    lines. *)
Theorem chunkMarkdown_begins_with_heading (content : string) :
  Forall (Observations.wellFormed source)
    (Docs.chunkMarkdown allCategories testIgnoringCase content source).
Proof.
  unfold Docs.chunkMarkdown.
  set (lines := JS.split Docs.LF (Docs.replaceCR (Docs.replaceCRLF content))).
  destruct (chunkLines_wellFormed lines [] None (Forall_nil _))
    as [Hchunks Hcurrent]; [discriminate|].
  destruct (Docs.chunkLines allCategories testIgnoringCase source lines [] None)
    as [chunks current].
  cbn [fst snd] in *. destruct current as [chunk|]; [|exact Hchunks].
  apply Forall_app. split; [exact Hchunks|]. constructor; [|constructor].
  apply finalizeChunk_wellFormed. apply Hcurrent. reflexivity.
Qed.

(** X16. [categorizeChunk] gives identifiers of the table only, and none
    of a category that has fewer than two keywords. *)
Theorem categorizeChunk_needs_two_keywords (content id : string) :
  In id (Docs.categorizeChunk allCategories testIgnoringCase content) ->
  exists category,
    In category allCategories /\ Docs.categoryId category = id /\
    (2 <= List.length (Docs.keywords category))%nat.
Proof.
  unfold Docs.categorizeChunk. intros H. apply in_map_iff in H.
  destruct H as [category [Hid H]]. apply filter_In in H.
  destruct H as [Hin Hcount]. apply Nat.leb_le in Hcount.
  exists category. repeat split; try assumption.
  apply (Nat.le_trans _ _ _ Hcount), filter_length_le.
Qed.

End LoaderFacts.

Lemma categorizeChunk_needs_two_keywords_witness :
  In "networking"
    (Docs.categorizeChunk Samples.table Samples.containsKeyword
       "A replicated value is set on the server.") /\
  exists category,
    In category Samples.table /\ Docs.categoryId category = "networking" /\
    (2 <= List.length (Docs.keywords category))%nat.
Proof.
  assert (In "networking"
            (Docs.categorizeChunk Samples.table Samples.containsKeyword
               "A replicated value is set on the server.")) as H
    by (vm_compute; now left).
  split; [exact H|].
  exact (categorizeChunk_needs_two_keywords Samples.table
           Samples.containsKeyword _ _ H).
Defined.

(** ** The search over the chunks *)

Lemma includes_within (s before after sub : string) :
  JSText.includes s sub = true ->
  JSText.includes (before ++ s ++ after) sub = true.
Proof.
  rewrite !includes_occurs. intros [b [a ->]].
  exists (before ++ b), (a ++ after). now rewrite !string_app_assoc.
Qed.

(** For a chunk whose text begins with its heading line, a query found in
    the heading is found in the text. *)
Lemma wellFormed_heading_in_content (source query : string)
    (chunk : Docs.DocChunk) :
  Observations.wellFormed source chunk ->
  JSText.includes (JSText.toLowerCase (Docs.heading chunk))
    (JSText.toLowerCase query) = true ->
  Observations.contentHas query chunk = true.
Proof.
  intros [_ [_ [_ [rest [_ Hcontent]]]]] H. unfold Observations.contentHas.
  destruct Hcontent as [[_ ->] | [_ ->]];
    rewrite !toLowerCase_app; now apply includes_within.
Qed.

Lemma searchChunks_wellFormed (chunks : list Docs.DocChunk) (query : string) :
  Forall (fun chunk => exists source, Observations.wellFormed source chunk)
    chunks ->
  Docs.searchChunks chunks query
  = filter (Observations.contentHas query) chunks.
Proof.
  unfold Docs.searchChunks. induction 1 as [|chunk chunks [source Hw] _ IH];
    [reflexivity|].
  cbn [filter]. rewrite IH.
  fold (Observations.contentHas query chunk).
  destruct (JSText.includes (JSText.toLowerCase (Docs.heading chunk))
              (JSText.toLowerCase query)) eqn:Hh; [|reflexivity].
  now rewrite (wellFormed_heading_in_content source query chunk Hw Hh).
Qed.

(** X17. Over the chunks of two documents, as [loadDocChunks] puts them
    together, [searchChunks] finds exactly the chunks whose text contains
    the query, the case of letters set aside: a heading is part of the
    text of its chunk, so the test on the heading adds nothing. *)
Theorem searchChunks_by_content (allCategories : list Docs.Category)
    (testIgnoringCase : string -> string -> bool)
    (ueAsContent langContent ueAsSource langSource query : string) :
  Docs.searchChunks
    (Docs.chunkMarkdown allCategories testIgnoringCase ueAsContent ueAsSource
       ++ Docs.chunkMarkdown allCategories testIgnoringCase langContent
            langSource)%list
    query
  = filter (Observations.contentHas query)
      (Docs.chunkMarkdown allCategories testIgnoringCase ueAsContent ueAsSource
         ++ Docs.chunkMarkdown allCategories testIgnoringCase langContent
              langSource)%list.
Proof.
  apply searchChunks_wellFormed. apply Forall_app. split.
  - eapply Forall_impl; [|apply chunkMarkdown_wellFormed].
    intros chunk H. now exists ueAsSource.
  - eapply Forall_impl; [|apply chunkMarkdown_wellFormed].
    intros chunk H. now exists langSource.
Qed.

(** X18. The empty query finds every chunk, and a query is looked for
    without regard to the case of its letters. *)
Theorem searchChunks_empty_query (chunks : list Docs.DocChunk)
    (query : string) :
  Docs.searchChunks chunks "" = chunks /\
  Docs.searchChunks chunks (JSText.toLowerCase query)
  = Docs.searchChunks chunks query.
Proof.
  split.
  - unfold Docs.searchChunks. induction chunks as [|chunk chunks IH];
      [reflexivity|].
    cbn [filter]. rewrite IH. change (JSText.toLowerCase "") with "".
    now rewrite includes_empty.
  - unfold Docs.searchChunks. now rewrite toLowerCase_idempotent.
Qed.

(** X19. Over the chunks of a document, [getByCategory] returns chunks
    only for the identifier of a category of the table that has two
    keywords or more: for any other identifier it returns none. *)
Theorem getByCategory_known_category (allCategories : list Docs.Category)
    (testIgnoringCase : string -> string -> bool)
    (content source id : string) (chunk : Docs.DocChunk) :
  In chunk
    (Docs.getByCategory
       (Docs.chunkMarkdown allCategories testIgnoringCase content source) id) ->
  exists category,
    In category allCategories /\ Docs.categoryId category = id /\
    (2 <= List.length (Docs.keywords category))%nat.
Proof.
  unfold Docs.getByCategory. intros H. apply filter_In in H.
  destruct H as [Hin Hid].
  pose proof (chunkMarkdown_finalized allCategories testIgnoringCase source
                (fun c => Docs.categories c
                          = Docs.categorizeChunk allCategories testIgnoringCase
                              (Docs.content c))
                content (fun raw => eq_refl)) as Hall.
  rewrite Forall_forall in Hall. specialize (Hall chunk Hin).
  apply existsb_exists in Hid. destruct Hid as [id' [Hin' Heq]].
  apply String.eqb_eq in Heq. subst id'. rewrite Hall in Hin'.
  exact (categorizeChunk_table allCategories testIgnoringCase _ _ Hin').
Qed.

Lemma getByCategory_known_category_witness :
  exists category,
    In category Samples.table /\ Docs.categoryId category = "networking" /\
    (2 <= List.length (Docs.keywords category))%nat.
Proof.
  apply (getByCategory_known_category Samples.table Samples.containsKeyword
           Samples.handbook "handbook" "networking"
           (Docs.finalizeChunk Samples.table Samples.containsKeyword
              {| Docs.rawHeading := "Remote calls";
                 Docs.rawLevel := 2;
                 Docs.rawLines :=
                   ["## Remote calls";
                    "A replicated value is set on the server."] |}
              "handbook")).
  vm_compute. now left.
Defined.

(** ** Slugs *)

Lemma slugChar_not_dash (c : ascii) :
  Docs.isSlugChar c = true -> Ascii.eqb c "-" = false.
Proof.
  intros H. destruct (Ascii.eqb_spec c "-"%char) as [->|]; [discriminate H|].
  reflexivity.
Qed.

Lemma dashRuns_shape (s : string) :
  forall inRun,
    Observations.slugSafe (Docs.dashRuns inRun s) = true /\
    Observations.singleDashes (Docs.dashRuns inRun s) = true /\
    (inRun = true -> Observations.leadingDash (Docs.dashRuns inRun s) = false).
Proof.
  induction s as [|c r IH]; intros inRun; cbn [Docs.dashRuns].
  - now repeat split.
  - destruct (Docs.isSlugChar c) eqn:Hc.
    + destruct (IH false) as [H1 [H2 _]].
      cbn [Observations.slugSafe Observations.singleDashes
           Observations.leadingDash].
      rewrite Hc, H1, H2, (slugChar_not_dash c Hc). now repeat split.
    + destruct inRun; [apply IH|].
      destruct (IH true) as [H1 [H2 H3]].
      cbn [Observations.slugSafe Observations.singleDashes
           Observations.leadingDash].
      rewrite H1, H2, (H3 eq_refl). repeat split. discriminate.
Qed.

Lemma dropLeadingDash_shape (s : string) :
  Observations.slugSafe s = true ->
  Observations.singleDashes s = true ->
  Observations.slugSafe (Docs.dropLeadingDash s) = true /\
  Observations.singleDashes (Docs.dropLeadingDash s) = true /\
  Observations.leadingDash (Docs.dropLeadingDash s) = false.
Proof.
  destruct s as [|c r]; [now repeat split|].
  cbn [Docs.dropLeadingDash Observations.slugSafe Observations.singleDashes].
  intros H1 H2. apply andb_true_iff in H1, H2.
  destruct H1 as [H1 H1'], H2 as [H2 H2'].
  destruct (Ascii.eqb c "-") eqn:E.
  - repeat split; try assumption.
    destruct (Observations.leadingDash r); [discriminate H2 | reflexivity].
  - cbn [Observations.slugSafe Observations.singleDashes
         Observations.leadingDash].
    rewrite E, H1, H1', H2'. now repeat split.
Qed.

Lemma dropTrailingDash_cons (c d : ascii) (r : string) :
  Docs.dropTrailingDash (String c (String d r))
  = String c (Docs.dropTrailingDash (String d r)).
Proof. reflexivity. Qed.

Lemma dropTrailingDash_leading (s : string) :
  Observations.leadingDash s = false ->
  Observations.leadingDash (Docs.dropTrailingDash s) = false.
Proof.
  destruct s as [|c [|d r]]; [reflexivity| |].
  - cbn [Docs.dropTrailingDash Observations.leadingDash].
    intros H. rewrite H. exact H.
  - rewrite dropTrailingDash_cons. now cbn [Observations.leadingDash].
Qed.

Lemma dropTrailingDash_empty (s : string) :
  Docs.dropTrailingDash s = "" -> Observations.leadingDash s = true \/ s = "".
Proof.
  destruct s as [|c [|d r]]; [now right| |].
  - cbn [Docs.dropTrailingDash Observations.leadingDash].
    destruct (Ascii.eqb c "-"); [now left | discriminate].
  - rewrite dropTrailingDash_cons. discriminate.
Qed.

Lemma dropTrailingDash_shape (s : string) :
  Observations.slugSafe s = true ->
  Observations.singleDashes s = true ->
  Observations.slugSafe (Docs.dropTrailingDash s) = true /\
  Observations.singleDashes (Docs.dropTrailingDash s) = true /\
  Observations.trailingDash (Docs.dropTrailingDash s) = false.
Proof.
  induction s as [|c r IH]; [now repeat split|].
  destruct r as [|d r].
  - cbn [Docs.dropTrailingDash]. destruct (Ascii.eqb c "-") eqn:E.
    + now repeat split.
    + intros H1 H2. repeat split; assumption.
  - rewrite dropTrailingDash_cons.
    cbn [Observations.slugSafe Observations.singleDashes] in *.
    intros H1 H2. apply andb_true_iff in H1, H2.
    destruct H1 as [H1 H1'], H2 as [H2 H2'].
    destruct (IH H1' H2') as [I1 [I2 I3]].
    rewrite H1, I1, I2. repeat split.
    + rewrite andb_true_r.
      destruct (Ascii.eqb c "-"); [|reflexivity].
      cbn [andb negb] in H2 |- *.
      destruct (Observations.leadingDash (String d r)) eqn:L;
        [discriminate H2|].
      now rewrite (dropTrailingDash_leading _ L).
    + destruct (Docs.dropTrailingDash (String d r)) as [|e t] eqn:D.
      * apply dropTrailingDash_empty in D. destruct D as [D|D]; [|discriminate D].
        rewrite D, andb_true_r in H2. cbn [Observations.trailingDash].
        destruct (Ascii.eqb c "-"); [discriminate H2 | reflexivity].
      * exact I3.
Qed.

(** X20. A slug is made of small letters, digits and dashes only, no two
    dashes side by side, and neither begins nor ends with a dash. *)
Theorem slugify_shape (text : string) :
  Observations.slugSafe (Docs.slugify text) = true /\
  Observations.singleDashes (Docs.slugify text) = true /\
  Observations.leadingDash (Docs.slugify text) = false /\
  Observations.trailingDash (Docs.slugify text) = false.
Proof.
  unfold Docs.slugify.
  destruct (dashRuns_shape (JSText.toLowerCase text) false) as [A1 [A2 _]].
  destruct (dropLeadingDash_shape _ A1 A2) as [B1 [B2 B3]].
  destruct (dropTrailingDash_shape _ B1 B2) as [C1 [C2 C3]].
  repeat split; try assumption. now apply dropTrailingDash_leading.
Qed.

Lemma slugSafe_lowerChar (c : ascii) :
  Docs.isSlugChar c || Ascii.eqb c "-" = true -> JSText.lowerChar c = c.
Proof.
  destruct c as [[] [] [] [] [] [] [] []]; vm_compute; intros H;
    first [reflexivity | discriminate H].
Qed.

Lemma slugSafe_toLowerCase (s : string) :
  Observations.slugSafe s = true -> JSText.toLowerCase s = s.
Proof.
  induction s as [|c r IH]; [reflexivity|].
  cbn [Observations.slugSafe JSText.toLowerCase]. intros H.
  apply andb_true_iff in H. destruct H as [H1 H2].
  now rewrite (slugSafe_lowerChar c H1), (IH H2).
Qed.

Lemma dashRuns_fixed (s : string) :
  forall inRun,
    Observations.slugSafe s = true ->
    Observations.singleDashes s = true ->
    (inRun = true -> Observations.leadingDash s = false) ->
    Docs.dashRuns inRun s = s.
Proof.
  induction s as [|c r IH]; intros inRun H1 H2 H3; [reflexivity|].
  cbn [Docs.dashRuns Observations.slugSafe Observations.singleDashes
       Observations.leadingDash] in *.
  apply andb_true_iff in H1, H2.
  destruct H1 as [H1 H1'], H2 as [H2 H2'].
  destruct (Docs.isSlugChar c) eqn:Hc.
  - rewrite (IH false H1' H2'); [reflexivity | discriminate].
  - cbn [orb] in H1. destruct inRun.
    + rewrite (H3 eq_refl) in H1. discriminate H1.
    + rewrite H1 in H2. cbn [andb] in H2.
      rewrite (IH true H1' H2').
      * apply Ascii.eqb_eq in H1. now subst c.
      * intros _. destruct (Observations.leadingDash r);
          [discriminate H2 | reflexivity].
Qed.

Lemma dropLeadingDash_fixed (s : string) :
  Observations.leadingDash s = false -> Docs.dropLeadingDash s = s.
Proof.
  destruct s as [|c r]; [reflexivity|].
  cbn [Observations.leadingDash Docs.dropLeadingDash]. now intros ->.
Qed.

Lemma dropTrailingDash_fixed (s : string) :
  Observations.trailingDash s = false -> Docs.dropTrailingDash s = s.
Proof.
  induction s as [|c r IH]; [reflexivity|]. destruct r as [|d r].
  - cbn [Observations.trailingDash Docs.dropTrailingDash]. now intros ->.
  - rewrite dropTrailingDash_cons. intros H. now rewrite (IH H).
Qed.

(** X21. [slugify] leaves a slug as it is: the slug of a slug is the slug
    itself. *)
Theorem slugify_idempotent (text : string) :
  Docs.slugify (Docs.slugify text) = Docs.slugify text.
Proof.
  unfold Docs.slugify at 2 3.
  destruct (dashRuns_shape (JSText.toLowerCase text) false) as [A1 [A2 _]].
  destruct (dropLeadingDash_shape _ A1 A2) as [B1 [B2 B3]].
  destruct (dropTrailingDash_shape _ B1 B2) as [C1 [C2 C3]].
  pose proof (dropTrailingDash_leading _ B3) as C4.
  set (slug := Docs.dropTrailingDash
                 (Docs.dropLeadingDash
                    (Docs.dashRuns false (JSText.toLowerCase text)))) in *.
  unfold Docs.slugify.
  rewrite (slugSafe_toLowerCase slug C1).
  rewrite (dashRuns_fixed slug false C1 C2) by discriminate.
  rewrite (dropLeadingDash_fixed slug C4).
  exact (dropTrailingDash_fixed slug C3).
Qed.
